(** * Employee management server: authentication gate and employee API

    A shallow embedding of [server/server.js] and [server/config/database.js]
    (request handlers, validation chains, the bearer-token middleware and the
    tables created at start-up) and of the phone check of the client form
    ([src/pages/EmployeeForm.tsx]), with the properties of the specification
    stated over it.

    JavaScript objects used as dictionaries ([req.body], the object echoed by
    the create route) are finite maps from field names; the [employees] table
    is a finite map from its primary key; the handlers are programs over the
    queries they send to the connection pool, so that the response of the
    storage layer to every single query is visible. What the packages the
    server imports do, and what the storage engine makes of a value bound
    to a typed column, are interfaces the handlers are embedded over. *)

From Stdlib Require Import ZArith Ascii String.
From stdpp Require Import gmap strings list fin_maps pretty.

Local Open Scope Z_scope.
Local Open Scope string_scope.
Local Open Scope list_scope.

(** ** Strings as the code handles them *)

Module Text.

Definition code (c : ascii) : nat := nat_of_ascii c.

(** The class [\s] of JavaScript regular expressions, on one-byte
    characters: tab, line feed, vertical tab, form feed, carriage return
    and the space. *)
Definition is_whitespace (c : ascii) : bool :=
  ((9 <=? code c)%nat && (code c <=? 13)%nat) || (code c =? 32)%nat.

(** The class [\d]. *)
Definition is_digit (c : ascii) : bool :=
  (48 <=? code c)%nat && (code c <=? 57)%nat.

Definition is_upper (c : ascii) : bool :=
  (65 <=? code c)%nat && (code c <=? 90)%nat.

Definition lower_char (c : ascii) : ascii :=
  if is_upper c then ascii_of_nat (code c + 32) else c.

(** [String.prototype.toLowerCase] on one-byte characters. *)
Fixpoint toLowerCase (s : string) : string :=
  match s with
  | EmptyString => EmptyString
  | String c r => String (lower_char c) (toLowerCase r)
  end.

Fixpoint forall_chars (p : ascii → bool) (s : string) : bool :=
  match s with
  | EmptyString => true
  | String c r => p c && forall_chars p r
  end.

Fixpoint exists_char (p : ascii → bool) (s : string) : bool :=
  match s with
  | EmptyString => false
  | String c r => p c || exists_char p r
  end.

Fixpoint ltrim (s : string) : string :=
  match s with
  | EmptyString => EmptyString
  | String c r => if is_whitespace c then ltrim r else s
  end.

Fixpoint rev_onto (s acc : string) : string :=
  match s with
  | EmptyString => acc
  | String c r => rev_onto r (String c acc)
  end.

Definition rtrim (s : string) : string :=
  rev_onto (ltrim (rev_onto s EmptyString)) EmptyString.

(** The [trim()] sanitizer: white space removed at both ends. *)
Definition trim (s : string) : string := rtrim (ltrim s).

(** The [isLength({ min, max })] validator; [max] may be left out. *)
Definition isLength (min : nat) (max : option nat) (s : string) : bool :=
  (min <=? String.length s)%nat &&
  match max with
  | Some m => (String.length s <=? m)%nat
  | None => true
  end.

(** [String.prototype.split] with a one-character separator: the pieces
    between the separators, empty pieces included; never the empty list. *)
Fixpoint split (sep : ascii) (s : string) : list string :=
  match s with
  | EmptyString => [EmptyString]
  | String c r =>
      if Ascii.eqb c sep then EmptyString :: split sep r
      else match split sep r with
           | seg :: segs => String c seg :: segs
           | [] => [String c EmptyString]
           end
  end.

(** A string in a condition: only the empty string is falsy. *)
Definition truthy (s : string) : bool := negb (String.eqb s EmptyString).

End Text.

(** ** Data model *)

(** The identity a token carries: [{ id: admin.id, username: admin.username }]. *)
Record identity := { user_id : Z; user_name : string }.

(** A row of the [admins] table. *)
Record admin := {
  admin_id : Z;
  admin_username : string;
  admin_password : string;
  admin_created_at : Z
}.

(** A row of the [employees] table, without its primary key: the table maps
    the key to the row. [phone] and [address] are the two nullable columns. *)
Record employee := {
  first_name : string;
  last_name : string;
  email : string;
  position : string;
  department : string;
  salary : string;
  hire_date : string;
  phone : option string;
  address : option string;
  created_at : Z;
  updated_at : Z
}.

(** The nine bind parameters of the INSERT and UPDATE statements, as
    destructured from [req.body]: a field the body lacks is [undefined]. *)
Record params := {
  p_first_name : option string;
  p_last_name : option string;
  p_email : option string;
  p_position : option string;
  p_department : option string;
  p_salary : option string;
  p_hire_date : option string;
  p_phone : option string;
  p_address : option string
}.

(** The JSON values met here: strings and whole numbers, in the bodies
    of requests and in the object the create route sends back. *)
Inductive json :=
| JStr (s : string)
| JNum (n : Z).

(** One entry of [errors.array()]: the field and the message of its chain. *)
Record violation := { path : string; msg : string }.

Inductive payload :=
| Error (error : string)
| ErrorDetails (error : string) (details : list violation)
| Message (message : string)
| Created (message : string) (created : gmap string json)
| LoginOk (message token : string) (user : identity)
| Verified (user : identity)
| EmployeeRow (id : Z) (row : employee).

Record response := { status : Z; content : payload }.

(** The error kinds of the specification, by HTTP status. *)
Inductive error_kind :=
| Unauthorized | Forbidden | ValidationFailed | Conflict
| NotFound | TooManyRequests | Internal.

Definition kind_of (r : response) : option error_kind :=
  match status r with
  | 400 => Some ValidationFailed
  | 401 => Some Unauthorized
  | 403 => Some Forbidden
  | 404 => Some NotFound
  | 409 => Some Conflict
  | 429 => Some TooManyRequests
  | 500 => Some Internal
  | _ => None
  end.

(** ** Library functions the server calls

    The packages behind the imports of [server.js] are not part of the
    repository; the handlers are embedded over their interfaces. *)

(** validator.js, through express-validator. *)
Class Validator := {
  isEmail : string → bool;
  normalizeEmail : string → string;
  (** [isFloat({ min: 0 })] *)
  isFloat_min0 : string → bool;
  isDate : string → bool;
  isMobilePhone : string → bool
}.

(** bcryptjs: [compareSync] on two strings. Given anything else it
    throws. *)
Class Bcrypt := { compareSync : string → string → bool }.

Inductive jwt_error := TokenExpiredError | JsonWebTokenError | NotBeforeError.

(** jsonwebtoken: [sign] and [verify] read the secret and the clock. *)
Class Jwt := {
  jwt_sign : identity → string → Z → string;
  jwt_verify : string → string → Z → jwt_error + identity
}.

(** What the handlers rely on when they treat the sanitized email as the
    key of uniqueness: with its default options [normalizeEmail] lower-cases
    the whole address, so it cannot tell apart two addresses that differ by
    letter case, and what it returns is in lower case. It need not leave its
    own results alone: it drops the last [-tag] of a Yahoo address each
    time it is applied. *)
Class NormalizeLaws `{Validator} : Prop := {
  normalize_case : ∀ a b,
    Text.toLowerCase a = Text.toLowerCase b → normalizeEmail a = normalizeEmail b;
  normalize_lower : ∀ a,
    Text.toLowerCase (normalizeEmail a) = normalizeEmail a
}.

(** ** Validation chains *)

(** [req.body] after [express.json()]: field name to value, the value in the
    string form on which express-validator runs its validators. *)
Definition field (body : gmap string string) (k : string) : string :=
  default "" (body !! k).

Definition check (ok : bool) (p m : string) : list violation :=
  if ok then [] else [{| path := p; msg := m |}].

Section Validation.
Context `{Validator}.

(** [employeeValidation] followed by [validationResult(req)]: the
    violations, one per failing chain in the order of the chains, and the
    body as the sanitizers leave it. [optional()] skips a chain when the
    body has no such field. *)
Definition employeeValidation (body : gmap string string)
  : list violation * gmap string string :=
  let fn := Text.trim (field body "first_name") in
  let ln := Text.trim (field body "last_name") in
  let em := field body "email" in
  let po := Text.trim (field body "position") in
  let de := Text.trim (field body "department") in
  let errors :=
    check (Text.isLength 1 (Some 50%nat) fn) "first_name"
      "First name is required and must be less than 50 characters" ++
    check (Text.isLength 1 (Some 50%nat) ln) "last_name"
      "Last name is required and must be less than 50 characters" ++
    check (isEmail em) "email" "Valid email is required" ++
    check (Text.isLength 1 (Some 100%nat) po) "position"
      "Position is required and must be less than 100 characters" ++
    check (Text.isLength 1 (Some 100%nat) de) "department"
      "Department is required and must be less than 100 characters" ++
    check (isFloat_min0 (field body "salary")) "salary"
      "Salary must be a positive number" ++
    check (isDate (field body "hire_date")) "hire_date"
      "Valid hire date is required" ++
    match body !! "phone" with
    | None => []
    | Some ph => check (isMobilePhone ph) "phone" "Valid phone number required"
    end ++
    match body !! "address" with
    | None => []
    | Some ad => check (Text.isLength 0 (Some 200%nat) ad) "address"
                   "Address must be less than 200 characters"
    end in
  let body' :=
    <["first_name" := fn]> (<["last_name" := ln]>
    (<["email" := normalizeEmail em]> (<["position" := po]>
    (<["department" := de]> body)))) in
  (errors, body').

(** The chains of the login route. *)
Definition loginValidation (body : gmap string string)
  : list violation * gmap string string :=
  let un := Text.trim (field body "username") in
  let errors :=
    check (Text.isLength 1 None un) "username" "Username is required" ++
    check (Text.isLength 1 None (field body "password")) "password"
      "Password is required" in
  (errors, <["username" := un]> body).

(** [const { first_name, ..., address } = req.body] *)
Definition destructure (body : gmap string string) : params :=
  {| p_first_name := body !! "first_name";
     p_last_name := body !! "last_name";
     p_email := body !! "email";
     p_position := body !! "position";
     p_department := body !! "department";
     p_salary := body !! "salary";
     p_hire_date := body !! "hire_date";
     p_phone := body !! "phone";
     p_address := body !! "address" |}.

End Validation.

(** A payload with the four fields that no sanitizer of the chains sets;
    the sanitizers set the five others. *)
Definition complete (body : gmap string string) : Prop :=
  is_Some (body !! "salary") ∧ is_Some (body !! "hire_date") ∧
  is_Some (body !! "phone") ∧ is_Some (body !! "address").

(** [String(value)]: the text on which express-validator runs the
    validators and the sanitizers of a chain. *)
Definition toString (v : json) : string :=
  match v with
  | JStr s => s
  | JNum n => pretty n
  end.

(** The text of a field of a body whose values need not be strings. *)
Definition text (body : gmap string json) (k : string) : string :=
  default "" (toString <$> body !! k).

(** The chains of the login route on such a body: [trim()] puts the user
    name back as a string; no sanitizer touches the password, which stays
    the value the request brought. *)
Definition loginValidation_json (body : gmap string json)
  : list violation * gmap string json :=
  let un := Text.trim (text body "username") in
  let errors :=
    check (Text.isLength 1 None un) "username" "Username is required" ++
    check (Text.isLength 1 None (text body "password")) "password"
      "Password is required" in
  (errors, <["username" := JStr un]> body).

(** The phone and address lines of [validateForm] in the client form: an
    empty field is not checked; a filled phone must match
    [/^[\d\s\-\+\(\)]+$/]. *)
Module Client.

Definition phone_char (c : ascii) : bool :=
  Text.is_digit c || Text.is_whitespace c ||
  Ascii.eqb c "-" || Ascii.eqb c "+" || Ascii.eqb c "(" || Ascii.eqb c ")".

Definition phone_pattern (s : string) : bool :=
  Text.truthy s && Text.forall_chars phone_char s.

Definition validateForm_phone (phone : string) : option string :=
  if Text.truthy phone && negb (phone_pattern phone)
  then Some "Invalid phone number" else None.

Definition validateForm_address (address : string) : option string :=
  if Text.truthy address && (200 <? String.length address)%nat
  then Some "Max 200 characters" else None.

End Client.

(** ** The storage layer

    The two tables of [initializeDatabase], reached through [pool.execute].
    [employees] has an auto-incremented primary key and a UNIQUE constraint
    on [email]; the comparison the constraint and the WHERE clauses apply to
    the column is equality of the stored strings. *)

(** A rejected query: the handlers read [error.code], which an error of
    the server has and an exception of the driver has not. *)
Record sqlerr := { code : option string }.

Definition ER_DUP_ENTRY : sqlerr := {| code := Some "ER_DUP_ENTRY" |}.

(** The driver refuses [undefined] among the bind parameters of [execute]
    with a TypeError, before the statement is sent. *)
Definition undefined_parameter : sqlerr := {| code := None |}.

(** [error.code === c] *)
Definition has_code (error : sqlerr) (c : string) : bool :=
  match code error with
  | Some c' => String.eqb c' c
  | None => false
  end.

Record db := {
  admins : list admin;
  employees : gmap Z employee;
  next_id : Z
}.

(** The tables as [CREATE TABLE IF NOT EXISTS] leaves them on a first start;
    the rows of [admins] are those the bootstrap provides. *)
Definition initializeDatabase (bootstrap : list admin) : db :=
  {| admins := bootstrap; employees := ∅; next_id := 1 |}.

(** The statements of [server.js], indexed by what a successful execution
    resolves to: the rows of a SELECT, [result.insertId] of an INSERT. *)
Inductive query : Type → Type :=
| SelectAdminByUsername (username : string) : query (list admin)
| SelectEmployeeById (id : Z) : query (list (Z * employee))
| SelectEmployeeByEmail (e : option string) : query (list (Z * employee))
| SelectEmployeeByEmailNotId (e : option string) (id : Z)
    : query (list (Z * employee))
| InsertEmployee (p : params) : query Z
| UpdateEmployee (p : params) (id : Z) : query unit
| DeleteEmployee (id : Z) : query unit.

Inductive any_query :=
| AnyQ : ∀ R : Type, query R → any_query.

Arguments AnyQ {R} q.

(** The rows that hold a given email. *)
Definition holders (e : string) (d : db) : list (Z * employee) :=
  filter (λ ir, email (snd ir) = e) (map_to_list (employees d)).

Definition other_holders (e : string) (id : Z) (d : db) : list (Z * employee) :=
  filter (λ ir, fst ir ≠ id) (holders e d).

(** The values a statement binds, as a row without time stamps; [None]
    when a bind parameter is [undefined]. *)
Definition row_of (p : params) : option employee :=
  fn ← p_first_name p; ln ← p_last_name p; em ← p_email p;
  po ← p_position p; de ← p_department p; sa ← p_salary p;
  hd ← p_hire_date p; ph ← p_phone p; ad ← p_address p;
  Some {| first_name := fn; last_name := ln; email := em; position := po;
          department := de; salary := sa; hire_date := hd;
          phone := Some ph; address := Some ad;
          created_at := 0; updated_at := 0 |}.

(** The column types of [CREATE TABLE employees]: VARCHAR(50), VARCHAR(100)
    and VARCHAR(20) for the texts, DECIMAL(10, 2) for the salary, DATE for
    the hire date. What the server makes of the values bound to such
    columns is its own: [held_as] gives the values as the columns hold them
    and as a SELECT returns them, or the error with which the statement is
    refused when a value does not go into its column. The time stamps of
    the argument play no role. *)
Class Columns := { held_as : employee → sqlerr + employee }.

(** [created_at TIMESTAMP DEFAULT CURRENT_TIMESTAMP] and [updated_at
    TIMESTAMP DEFAULT CURRENT_TIMESTAMP ON UPDATE CURRENT_TIMESTAMP]. *)
Definition stamp (created updated : Z) (r : employee) : employee :=
  {| first_name := first_name r; last_name := last_name r;
     email := email r; position := position r;
     department := department r; salary := salary r;
     hire_date := hire_date r; phone := phone r; address := address r;
     created_at := created; updated_at := updated |}.

(** The nine columns a statement sets hold the same values in both rows. *)
Definition same_data (a b : employee) : Prop :=
  first_name a = first_name b ∧ last_name a = last_name b ∧
  email a = email b ∧ position a = position b ∧
  department a = department b ∧ salary a = salary b ∧
  hire_date a = hire_date b ∧ phone a = phone b ∧ address a = address b.

Global Instance same_data_dec a b : Decision (same_data a b).
Proof. unfold same_data. apply _. Defined.

(** The row an UPDATE leaves: a row whose columns all keep their values is
    not touched, [updated_at] included; otherwise the new values are in,
    [created_at] is as it was and [updated_at] is the current time. *)
Definition updated_row (clock : Z) (old new : employee) : employee :=
  if decide (same_data old new) then old
  else stamp (created_at old) clock new.

Definition db_exec `{Columns} (clock : Z) {R : Type} (q : query R) (d : db)
  : (sqlerr + R) * db :=
  match q in query R return (sqlerr + R) * db with
  | SelectAdminByUsername u =>
      (inr (filter (λ a, admin_username a = u) (admins d)), d)
  | SelectEmployeeById i =>
      (inr match employees d !! i with Some r => [(i, r)] | None => [] end, d)
  | SelectEmployeeByEmail e =>
      (match e with
       | Some e => inr (holders e d)
       | None => inl undefined_parameter
       end, d)
  | SelectEmployeeByEmailNotId e i =>
      (match e with
       | Some e => inr (other_holders e i d)
       | None => inl undefined_parameter
       end, d)
  | InsertEmployee p =>
      match row_of p with
      | None => (inl undefined_parameter, d)
      | Some bound =>
          match held_as bound with
          | inl refusal => (inl refusal, d)
          | inr held =>
              if decide (holders (email held) d = [])
              then (inr (next_id d),
                    {| admins := admins d;
                       employees := <[next_id d := stamp clock clock held]>
                                      (employees d);
                       next_id := next_id d + 1 |})
              else (inl ER_DUP_ENTRY, d)
          end
      end
  | UpdateEmployee p i =>
      match row_of p with
      | None => (inl undefined_parameter, d)
      | Some bound =>
          match employees d !! i with
          | None => (inr tt, d)
          | Some old =>
              match held_as bound with
              | inl refusal => (inl refusal, d)
              | inr held =>
                  if decide (other_holders (email held) i d = [])
                  then (inr tt,
                        {| admins := admins d;
                           employees := <[i := updated_row clock old held]>
                                          (employees d);
                           next_id := next_id d |})
                  else (inl ER_DUP_ENTRY, d)
              end
          end
      end
  | DeleteEmployee i =>
      (inr tt,
       {| admins := admins d;
          employees := delete i (employees d);
          next_id := next_id d |})
  end.

(** What the uniqueness of emails up to letter case asks of the columns:
    an email bound in lower case is held in lower case. *)
Class ColumnLaws `{Columns} : Prop := {
  held_lower : ∀ r r',
    held_as r = inr r' →
    Text.toLowerCase (email r) = email r →
    Text.toLowerCase (email r') = email r'
}.

(** ** Handlers as programs over the pool *)

(** A handler either answers or awaits [pool.execute] and goes on with what
    the pool resolves or rejects with. *)
Inductive prog (A : Type) : Type :=
| Ret (a : A)
| Exec {R : Type} (q : query R) (k : sqlerr + R → prog A).

Arguments Ret {A} a.
Arguments Exec {A R} q k.

(** An awaited statement inside [try { ... } catch (error) { ... }]. *)
Definition try_exec {A R : Type} (q : query R) (catch : sqlerr → A)
    (k : R → prog A) : prog A :=
  Exec q (λ r, match r with inl e => Ret (catch e) | inr v => k v end).

Notation "'let*' x ← q 'catch' h ; k" := (try_exec q h (λ x, k))
  (at level 10, x binder, q at level 9, h at level 9, k at level 200,
   format "'[v' 'let*'  x  ←  q  'catch'  h ; '/' k ']'").

(** What the pool answered to one statement of the handler. *)
Record event := { ev_query : any_query; ev_error : option sqlerr }.

Definition error_of {R : Type} (r : sqlerr + R) : option sqlerr :=
  match r with inl e => Some e | inr _ => None end.

Fixpoint exec_all `{Columns} (clock : Z) (qs : list any_query) (d : db) : db :=
  match qs with
  | [] => d
  | AnyQ q :: qs' => exec_all clock qs' (snd (db_exec clock q d))
  end.

Record outcome (A : Type) := {
  result : A;
  final : db;
  trace : list event
}.

Arguments result {A} o.
Arguments final {A} o.
Arguments trace {A} o.

(** One request served against the tables. Other requests are served at the
    same time: [env] gives, for each statement of this handler in turn, the
    statements of the others that the pool executes just before it; what
    the others do after the last statement of this handler is not part of
    its run. [env = []] is a request served alone. *)
Fixpoint run `{Columns} {A : Type} (clock : Z) (p : prog A)
    (env : list (list any_query)) (d : db) : outcome A :=
  match p with
  | Ret a => {| result := a; final := d; trace := [] |}
  | Exec q k =>
      let d1 := exec_all clock (hd [] env) d in
      let rd := db_exec clock q d1 in
      let o := run clock (k (fst rd)) (tl env) (snd rd) in
      {| result := result o; final := final o;
         trace := {| ev_query := AnyQ q; ev_error := error_of (fst rd) |} :: trace o |}
  end.

(** The statements a program may send, whatever the pool answers. *)
Fixpoint query_in {A : Type} (p : prog A) (x : any_query) : Prop :=
  match p with
  | Ret _ => False
  | Exec q k => x = AnyQ q ∨ ∃ r, query_in (k r) x
  end.

(** ** The routes of [server.js] *)

Definition respond (s : Z) (c : payload) : response :=
  {| status := s; content := c |}.

Section Server.
Context `{Validator} `{Bcrypt} `{Jwt} `{Columns}.

(** [process.env.JWT_SECRET || 'fallback-secret-key-change-immediately'] *)
Variable JWT_SECRET : string.

(** [authHeader && authHeader.split(' ')[1]]: a missing header gives
    [undefined], an empty header gives itself. *)
Definition header_token (authHeader : option string) : option string :=
  match authHeader with
  | None => None
  | Some h => if Text.truthy h then Text.split " " h !! 1%nat else Some h
  end.

(** The middleware [authenticateToken]: [inl] is the response it sends
    itself, [inr] the identity it stores in [req.user] before [next()]. *)
Definition authenticateToken (clock : Z) (authHeader : option string)
  : response + identity :=
  match header_token authHeader with
  | None => inl (respond 401 (Error "Access token required"))
  | Some token =>
      if negb (Text.truthy token)
      then inl (respond 401 (Error "Access token required"))
      else match jwt_verify token JWT_SECRET clock with
           | inl err => inl (respond 403 (Error "Invalid or expired token"))
           | inr user => inr user
           end
  end.

(** [app.METHOD(path, authenticateToken, handler)] *)
Definition guarded (clock : Z) (authHeader : option string)
    (handler : identity → prog response) : prog response :=
  match authenticateToken clock authHeader with
  | inl r => Ret r
  | inr user => handler user
  end.

(** POST /api/auth/login, after the rate limiter, on a body whose values
    are strings: [bcrypt.compareSync] and [jwt.sign] then return, and of
    the [try] block only the awaited SELECT can end in the [catch]. *)
Definition login (clock : Z) (body : gmap string string) : prog response :=
  let v := loginValidation body in
  match fst v with
  | _ :: _ => Ret (respond 400 (ErrorDetails "Invalid input" (fst v)))
  | [] =>
      let username := field (snd v) "username" in
      let password := field (snd v) "password" in
      let* rows ← (SelectAdminByUsername username)
        catch (λ _, respond 500 (Error "Internal server error"));
      match head rows with
      | None => Ret (respond 401 (Error "Invalid credentials"))
      | Some admin =>
          if negb (compareSync password (admin_password admin))
          then Ret (respond 401 (Error "Invalid credentials"))
          else
            let user := {| user_id := admin_id admin;
                           user_name := admin_username admin |} in
            Ret (respond 200
                   (LoginOk "Login successful"
                      (jwt_sign user JWT_SECRET clock) user))
      end
  end.

(** The administrator a login request names, if there is one: the first
    row the SELECT of the route finds for the trimmed user name. *)
Definition administrator (d : db) (body : gmap string string) : option admin :=
  head (filter (λ a, admin_username a = Text.trim (field body "username"))
          (admins d)).

(** POST /api/auth/login on a body whose values need not be strings.
    [bcrypt.compareSync] throws when the password it is given is not a
    string; the call sits in the [try] block of the route, whose [catch]
    answers 500. The call is reached only when the SELECT found a row. *)
Definition login_json (clock : Z) (body : gmap string json) : prog response :=
  let v := loginValidation_json body in
  match fst v with
  | _ :: _ => Ret (respond 400 (ErrorDetails "Invalid input" (fst v)))
  | [] =>
      let username := text (snd v) "username" in
      let* rows ← (SelectAdminByUsername username)
        catch (λ _, respond 500 (Error "Internal server error"));
      match head rows with
      | None => Ret (respond 401 (Error "Invalid credentials"))
      | Some admin =>
          match snd v !! "password" with
          | Some (JStr password) =>
              if negb (compareSync password (admin_password admin))
              then Ret (respond 401 (Error "Invalid credentials"))
              else
                let user := {| user_id := admin_id admin;
                               user_name := admin_username admin |} in
                Ret (respond 200
                       (LoginOk "Login successful"
                          (jwt_sign user JWT_SECRET clock) user))
          | _ => Ret (respond 500 (Error "Internal server error"))
          end
      end
  end.

Definition administrator_json (d : db) (body : gmap string json)
  : option admin :=
  head (filter (λ a, admin_username a = Text.trim (text body "username"))
          (admins d)).

(** POST /api/auth/verify *)
Definition verify (user : identity) : prog response :=
  Ret (respond 200 (Verified user)).

(** GET /api/employees/:id *)
Definition get_employee (id : Z) : prog response :=
  let* rows ← (SelectEmployeeById id)
    catch (λ _, respond 500 (Error "Failed to fetch employee"));
  match head rows with
  | None => Ret (respond 404 (Error "Employee not found"))
  | Some ir => Ret (respond 200 (EmployeeRow (fst ir) (snd ir)))
  end.

Definition create_catch (error : sqlerr) : response :=
  if has_code error "ER_DUP_ENTRY"
  then respond 409 (Error "Employee with this email already exists")
  else respond 500 (Error "Failed to create employee").

(** POST /api/employees. The object sent back is
    [{ id: result.insertId, ...req.body }]: the sanitized body, and the new
    key under ["id"] unless the body has an ["id"] of its own. *)
Definition create_employee (body : gmap string string) : prog response :=
  let v := employeeValidation body in
  match fst v with
  | _ :: _ => Ret (respond 400 (ErrorDetails "Validation failed" (fst v)))
  | [] =>
      let p := destructure (snd v) in
      let* existingRows ← (SelectEmployeeByEmail (p_email p))
        catch create_catch;
      if (0 <? length existingRows)%nat
      then Ret (respond 409 (Error "Employee with this email already exists"))
      else
        let* insertId ← (InsertEmployee p) catch create_catch;
        Ret (respond 201
               (Created "Employee created successfully"
                  ((JStr <$> snd v) ∪ {[ "id" := JNum insertId ]})))
  end.

Definition update_catch (error : sqlerr) : response :=
  if has_code error "ER_DUP_ENTRY"
  then respond 409 (Error "Another employee with this email already exists")
  else respond 500 (Error "Failed to update employee").

(** PUT /api/employees/:id *)
Definition update_employee (id : Z) (body : gmap string string)
  : prog response :=
  let v := employeeValidation body in
  match fst v with
  | _ :: _ => Ret (respond 400 (ErrorDetails "Validation failed" (fst v)))
  | [] =>
      let p := destructure (snd v) in
      let* existingRows ← (SelectEmployeeById id) catch update_catch;
      if (length existingRows =? 0)%nat
      then Ret (respond 404 (Error "Employee not found"))
      else
        let* duplicateRows ← (SelectEmployeeByEmailNotId (p_email p) id)
          catch update_catch;
        if (0 <? length duplicateRows)%nat
        then Ret (respond 409
                    (Error "Another employee with this email already exists"))
        else
          let* _ ← (UpdateEmployee p id) catch update_catch;
          Ret (respond 200 (Message "Employee updated successfully"))
  end.

Definition delete_catch (error : sqlerr) : response :=
  respond 500 (Error "Failed to delete employee").

(** DELETE /api/employees/:id *)
Definition delete_employee (id : Z) : prog response :=
  let* existingRows ← (SelectEmployeeById id) catch delete_catch;
  if (length existingRows =? 0)%nat
  then Ret (respond 404 (Error "Employee not found"))
  else
    let* _ ← (DeleteEmployee id) catch delete_catch;
    Ret (respond 200 (Message "Employee deleted successfully")).

(** The requests that write to [employees]. *)
Inductive request :=
| Create (body : gmap string string)
| Update (id : Z) (body : gmap string string)
| Delete (id : Z).

Definition handle (req : request) : prog response :=
  match req with
  | Create body => create_employee body
  | Update id body => update_employee id body
  | Delete id => delete_employee id
  end.

(** A statement some handler may send while it serves some request. *)
Definition issued (x : any_query) : Prop := ∃ req, query_in (handle req) x.

(** The states of the tables the server can bring about from a first
    start: requests are served one after the other or at the same time. *)
Inductive reachable : db → Prop :=
| reach_start bootstrap : reachable (initializeDatabase bootstrap)
| reach_serve d clock req env :
    reachable d →
    Forall (Forall issued) env →
    reachable (final (run clock (handle req) env d)).

End Server.

(** ** The rate limiter of the login route *)

Module Limiter.

(** [windowMs: 15 * 60 * 1000] and [max: 5] of [authLimiter]. *)
Definition windowMs : Z := 15 * 60 * 1000.
Definition max : nat := 5.

(** One counted request: who called and when (milliseconds). *)
Record hit := { hit_origin : string; hit_time : Z }.

(** Modelled from the spec: the sliding window. A counted request of the
    origin is in the window of a request made at [clock] when it is less
    than [windowMs] old. *)
Definition in_window (origin : string) (clock : Z) (h : hit) : Prop :=
  hit_origin h = origin ∧ clock - windowMs < hit_time h.

Global Instance in_window_dec origin clock h : Decision (in_window origin clock h).
Proof. unfold in_window. apply _. Defined.

(** Modelled from the spec: the store and the decision of the middleware
    that [rateLimit(...)] builds, which the repository only configures. The
    state is process-wide and keyed by the calling origin; every request to
    the route counts; an origin that has exhausted [max] attempts within a
    sliding window of [windowMs] is rejected until the window elapses. *)
Definition exhausted (store : list hit) (origin : string) (clock : Z) : bool :=
  bool_decide (max ≤ length (filter (in_window origin clock) store))%nat.

(** Modelled from the spec: every request to the route is counted, also
    one that the limiter rejects. *)
Definition record_hit (store : list hit) (origin : string) (clock : Z)
  : list hit :=
  {| hit_origin := origin; hit_time := clock |} :: store.

End Limiter.

(** Modelled from the spec: what the middleware that [rateLimit] builds
    from the configuration of [authLimiter] does with a request: the
    response it sends by itself, if any, and the store after the request.
    The message is the configured one, the status that of TooManyRequests. *)
Definition authLimiter (store : list Limiter.hit) (origin : string) (clock : Z)
  : option response * list Limiter.hit :=
  (if Limiter.exhausted store origin clock
   then Some (respond 429
                (Error "Too many authentication attempts, please try again later."))
   else None,
   Limiter.record_hit store origin clock).

Section LoginRoute.
Context `{Validator} `{Bcrypt} `{Jwt} `{Columns}.
Variable JWT_SECRET : string.

(** [app.post('/api/auth/login', authLimiter, [...], handler)]: the limiter
    comes first; the chains and the handler run only if it lets the request
    through. *)
Definition login_route (store : list Limiter.hit) (origin : string)
    (clock : Z) (body : gmap string string)
  : prog response * list Limiter.hit :=
  let limited := authLimiter store origin clock in
  (match fst limited with
   | Some r => Ret r
   | None => login JWT_SECRET clock body
   end,
   snd limited).

(** A login request as the process sees it. *)
Record attempt := {
  origin : string;
  at_time : Z;
  credentials : gmap string string
}.

(** What the limiter counts for a request. *)
Definition counted (a : attempt) : Limiter.hit :=
  {| Limiter.hit_origin := origin a; Limiter.hit_time := at_time a |}.

(** The process serving one login request, and a sequence of them. *)
Definition serve_login (st : list Limiter.hit * db) (a : attempt)
  : response * (list Limiter.hit * db) :=
  let r := login_route (fst st) (origin a) (at_time a) (credentials a) in
  let o := run (at_time a) (fst r) [] (snd st) in
  (result o, (snd r, final o)).

Fixpoint serve_logins (st : list Limiter.hit * db) (l : list attempt)
  : list Limiter.hit * db :=
  match l with
  | [] => st
  | a :: l' => serve_logins (snd (serve_login st a)) l'
  end.

End LoginRoute.

(** ** Stand-ins for the libraries and the storage engine

    Small executable instances of the interfaces, to run the handlers on
    concrete requests. The validator keeps of each check a condition the
    library also imposes: an address has an [@], a number and a date are not
    empty, a mobile phone number has a digit. A second validator normalizes
    the addresses of one provider as the library does. The columns are
    those of a server in strict mode. *)

Module Reference.

Definition has_char (c : ascii) (s : string) : bool :=
  Text.exists_char (Ascii.eqb c) s.

Definition validator : Validator :=
  {| isEmail := has_char "@";
     normalizeEmail := Text.toLowerCase;
     isFloat_min0 := λ s, Text.truthy s &&
       Text.forall_chars (λ c, Text.is_digit c || Ascii.eqb c ".") s;
     isDate := λ s, Text.truthy s &&
       Text.forall_chars (λ c, Text.is_digit c || Ascii.eqb c "-") s;
     isMobilePhone := Text.exists_char Text.is_digit |}.

Fixpoint join (sep : string) (pieces : list string) : string :=
  match pieces with
  | [] => ""
  | [piece] => piece
  | piece :: more => String.append piece (String.append sep (join sep more))
  end.

(** What [normalizeEmail] does, with its default options, to the local
    part of an address at yahoo.com: [yahoo_remove_subaddress] takes off
    what follows the last dash, [components.slice(0, -1).join('-')]. *)
Definition remove_subaddress (user : string) : string :=
  match Text.split "-" user with
  | [] | [_] => user
  | components => join "-" (removelast components)
  end.

(** [normalizeEmail] on the addresses the stand-in tells apart: all of the
    address in lower case, and for yahoo.com the subaddress removed. (The
    library gives [false] when nothing is left of the local part; the
    stand-in is not run on such an address.) *)
Definition normalize_yahoo (e : string) : string :=
  match Text.split "@" (Text.toLowerCase e) with
  | [user; domain] =>
      if String.eqb domain "yahoo.com"
      then String.append (remove_subaddress user) "@yahoo.com"
      else Text.toLowerCase e
  | _ => Text.toLowerCase e
  end.

Definition yahoo : Validator :=
  {| isEmail := has_char "@";
     normalizeEmail := normalize_yahoo;
     isFloat_min0 := isFloat_min0 (Validator := validator);
     isDate := isDate (Validator := validator);
     isMobilePhone := isMobilePhone (Validator := validator) |}.

Definition fits (max : nat) (s : string) : bool :=
  (String.length s <=? max)%nat.

(** A value within the bounds of its column: the VARCHAR lengths of the
    table, and at most eight digits before the point of DECIMAL(10, 2). *)
Definition in_bounds (r : employee) : bool :=
  fits 50 (first_name r) && fits 50 (last_name r) && fits 100 (email r) &&
  fits 100 (position r) && fits 100 (department r) &&
  fits 8 (hd "" (Text.split "." (salary r))) &&
  fits 20 (default "" (phone r)).

(** [columns]: a value out of bounds is refused, as a server in strict
    mode does; a salary written without decimals is held, and returned,
    with two. *)
#[global] Instance columns : Columns :=
  {| held_as := λ r,
       if in_bounds r
       then inr {| first_name := first_name r; last_name := last_name r;
                   email := email r; position := position r;
                   department := department r;
                   salary := if has_char "." (salary r) then salary r
                             else String.append (salary r) ".00";
                   hire_date := hire_date r; phone := phone r;
                   address := address r;
                   created_at := created_at r; updated_at := updated_at r |}
       else inl {| code := Some "ER_DATA_TOO_LONG" |} |}.

Definition bcrypt : Bcrypt :=
  {| compareSync := λ s hash, String.eqb (String.append "hash:" s) hash |}.

Definition jwt : Jwt :=
  {| jwt_sign := λ user secret clock, String.append secret ".admin";
     jwt_verify := λ token secret clock,
       if String.eqb token (String.append secret ".admin")
       then inr {| user_id := 1; user_name := "admin" |}
       else if String.eqb token (String.append secret ".stale")
            then inl TokenExpiredError
            else inl JsonWebTokenError |}.

Definition secret : string := "s3cret".

Definition root : admin :=
  {| admin_id := 1; admin_username := "admin";
     admin_password := "hash:admin123"; admin_created_at := 0 |}.

(** A complete payload of the employee form. *)
Definition ada : gmap string string :=
  <["first_name" := "Ada"]> (<["last_name" := "Lovelace"]>
  (<["email" := "Ada@X.com"]> (<["position" := "Engineer"]>
  (<["department" := "Research"]> (<["salary" := "5000"]>
  (<["hire_date" := "2024-01-15"]> (<["phone" := "+447911123456"]>
  (<["address" := "12 St James Square"]> ∅)))))))).

Definition grace : gmap string string :=
  <["first_name" := "Grace"]> (<["last_name" := "Hopper"]>
  (<["email" := "grace@x.com"]> (<["position" := "Admiral"]>
  (<["department" := "Navy"]> (<["salary" := "7000"]>
  (<["hire_date" := "2023-05-01"]> (<["phone" := "+12125550100"]>
  (<["address" := "1 Navy Yard"]> ∅)))))))).

(** The INSERT of another request that creates the same employee. *)
Definition rival : any_query :=
  AnyQ (InsertEmployee
          (@destructure (snd (@employeeValidation validator ada)))).

(** The tables after both payloads were created, in this order. *)
Definition staffed : db :=
  final (run 20 (@create_employee validator grace) []
           (final (run 10 (@create_employee validator ada) []
                     (initializeDatabase [root])))).

(** The rows of [staffed]. *)
Definition ada_row : employee :=
  {| first_name := "Ada"; last_name := "Lovelace"; email := "ada@x.com";
     position := "Engineer"; department := "Research"; salary := "5000.00";
     hire_date := "2024-01-15"; phone := Some "+447911123456";
     address := Some "12 St James Square";
     created_at := 10; updated_at := 10 |}.

Definition grace_row : employee :=
  {| first_name := "Grace"; last_name := "Hopper"; email := "grace@x.com";
     position := "Admiral"; department := "Navy"; salary := "7000.00";
     hire_date := "2023-05-01"; phone := Some "+12125550100";
     address := Some "1 Navy Yard";
     created_at := 20; updated_at := 20 |}.

Definition login_body (username password : string) : gmap string string :=
  <["username" := username]> (<["password" := password]> ∅).

(** A login attempt of one origin with the right credentials, at a given
    time in milliseconds. *)
Definition knock (t : Z) : attempt :=
  {| origin := "10.0.0.7"; at_time := t;
     credentials := login_body "admin" "admin123" |}.

End Reference.

(** The bearer token the middleware goes on with, if any: what
    [header_token] finds, unless it is falsy. *)
Definition extracted (authHeader : option string) : option string :=
  match header_token authHeader with
  | Some t => if Text.truthy t then Some t else None
  | None => None
  end.

(** A statement that writes to [employees] a row, and a trace in which the
    pool rejected such a statement for a duplicate key. *)
Definition is_write (x : any_query) : bool :=
  match x with
  | AnyQ q =>
      match q with
      | InsertEmployee _ | UpdateEmployee _ _ => true
      | _ => false
      end
  end.

Definition write_rejected (tr : list event) : Prop :=
  ∃ e err, e ∈ tr ∧ is_write (ev_query e) = true ∧
           ev_error e = Some err ∧ code err = Some "ER_DUP_ENTRY".

(** The keys handed out so far are below the counter. *)
Definition well_keyed (d : db) : Prop :=
  ∀ i r, employees d !! i = Some r → i < next_id d.

(** No two rows hold the same email. *)
Definition distinct_emails (d : db) : Prop :=
  ∀ i j r1 r2,
    employees d !! i = Some r1 → employees d !! j = Some r2 →
    email r1 = email r2 → i = j.

(** Every stored email is in lower case. *)
Definition lower_cased (d : db) : Prop :=
  ∀ i r, employees d !! i = Some r → Text.toLowerCase (email r) = email r.

Definition consistent (d : db) : Prop :=
  well_keyed d ∧ distinct_emails d ∧ lower_cased d.

(** A statement that, if it writes an email, binds one in lower case. *)
Definition lower_case_write (x : any_query) : Prop :=
  match x with
  | AnyQ q =>
      match q with
      | InsertEmployee p | UpdateEmployee p _ =>
          ∀ e, p_email p = Some e → Text.toLowerCase e = e
      | _ => True
      end
  end.


(** The values a create or an update that passes validation binds to its
    statement: the payload as the sanitizers leave it, as a row without
    time stamps. *)
Definition sanitized_values `{Validator} (body : gmap string string)
  : employee :=
  {| first_name := Text.trim (field body "first_name");
     last_name := Text.trim (field body "last_name");
     email := normalizeEmail (field body "email");
     position := Text.trim (field body "position");
     department := Text.trim (field body "department");
     salary := field body "salary";
     hire_date := field body "hire_date";
     phone := body !! "phone";
     address := body !! "address";
     created_at := 0;
     updated_at := 0 |}.

(** The characters the specification names for a phone number: digits,
    spaces, dashes, parentheses and plus signs. *)
Definition spec_phone_char (c : ascii) : bool :=
  Text.is_digit c || Ascii.eqb c " " || Ascii.eqb c "-" ||
  Ascii.eqb c "(" || Ascii.eqb c ")" || Ascii.eqb c "+".

(** The chain of a field reported a violation. *)
Definition violates (errors : list violation) (p : string) : Prop :=
  ∃ m, {| path := p; msg := m |} ∈ errors.

Definition no_space (s : string) : bool :=
  Text.forall_chars (λ c, negb (Ascii.eqb c " ")) s.

(** A header that carries the token [t]: a first word, one space, then [t],
    which is not empty and runs to the next space or to the end of the
    header. *)
Definition carries (authHeader : option string) (t : string) : Prop :=
  ∃ scheme rest,
    authHeader =
      Some (String.append scheme (String " " (String.append t rest))) ∧
    no_space scheme = true ∧ no_space t = true ∧ t ≠ "" ∧
    (rest = "" ∨ ∃ rest', rest = String " " rest').

(** ** The bootstrap of [initializeApp] *)

Section Bootstrap.

(** [bcrypt.hashSync(password, 10)] *)
Variable hashSync : string → string.

(** A key above those in use, as the auto-incremented column gives. *)
Definition next_admin_id (rows : list admin) : Z :=
  1 + foldr Z.max 0 (admin_id <$> rows).

(** [initializeApp] once the connection and the tables are there: the
    default administrator is inserted unless a row named ["admin"] exists. *)
Definition initializeApp (clock : Z) (d : db) : db :=
  match filter (λ a, admin_username a = "admin") (admins d) with
  | [] =>
      {| admins := admins d ++
                   [{| admin_id := next_admin_id (admins d);
                       admin_username := "admin";
                       admin_password := hashSync "admin123";
                       admin_created_at := clock |}];
         employees := employees d;
         next_id := next_id d |}
  | _ :: _ => d
  end.

End Bootstrap.

(** ** The client: form checks and the employee list *)

Module Form.

(** The two lines of [validateForm] for a required text field: blank after
    [trim()] is "required"; otherwise the length of the value as typed is
    held against the bound. *)
Definition required_text (value : string) (max : nat)
    (required too_long : string) : option string :=
  if negb (Text.truthy (Text.trim value)) then Some required
  else if (max <? String.length value)%nat then Some too_long
  else None.

Definition first_name_error (value : string) : option string :=
  required_text value 50 "First name is required" "Max 50 characters".

Definition last_name_error (value : string) : option string :=
  required_text value 50 "Last name is required" "Max 50 characters".

Definition position_error (value : string) : option string :=
  required_text value 100 "Position is required" "Max 100 characters".

Definition department_error (value : string) : option string :=
  required_text value 100 "Department is required" "Max 100 characters".

(** The header every request of the client carries: [`Bearer ${token}`]. *)
Definition authorization (token : string) : string :=
  String.append "Bearer " token.

End Form.

Module Roster.

Fixpoint starts_with (sub s : string) : bool :=
  match sub, s with
  | EmptyString, _ => true
  | String _ _, EmptyString => false
  | String a sub', String b s' => Ascii.eqb a b && starts_with sub' s'
  end.

(** [String.prototype.includes]: [sub] occurs somewhere in [s]. *)
Fixpoint includes (s sub : string) : bool :=
  starts_with sub s ||
  match s with
  | EmptyString => false
  | String _ r => includes r sub
  end.

(** The predicate of the search box in [filterEmployees]: the term occurs,
    letter case apart, in the full name, the email or the position. *)
Definition matches_term (searchTerm : string) (emp : employee) : bool :=
  let term := Text.toLowerCase searchTerm in
  includes (Text.toLowerCase
              (String.append (first_name emp)
                 (String.append " " (last_name emp)))) term ||
  includes (Text.toLowerCase (email emp)) term ||
  includes (Text.toLowerCase (position emp)) term.

(** [filterEmployees]: an empty search term and an empty department do not
    filter. *)
Definition filterEmployees (employees : list employee)
    (searchTerm selectedDepartment : string) : list employee :=
  let filtered :=
    if Text.truthy searchTerm
    then filter (λ emp, matches_term searchTerm emp = true) employees
    else employees in
  if Text.truthy selectedDepartment
  then filter (λ emp, department emp = selectedDepartment) filtered
  else filtered.

(** The elements of [new Set(values)] in its iteration order: each value
    once, where it first occurs. *)
Fixpoint set_of (values : list string) : list string :=
  match values with
  | [] => []
  | v :: rest => v :: filter (λ w, w ≠ v) (set_of rest)
  end.

(** [[...new Set(employees.map(emp => emp.department))]], the choices of
    the department box; its length is the department count of the
    dashboard. *)
Definition departments (employees : list employee) : list string :=
  set_of (department <$> employees).

(** What [handleDelete] leaves in the list after the server said yes:
    [prev.filter(emp => emp.id !== employee.id)]. *)
Definition handleDelete (rows : list (Z * employee)) (id : Z)
  : list (Z * employee) :=
  filter (λ ir, fst ir ≠ id) rows.

End Roster.

(** * Properties *)

(** ** Strings *)

Example split_bearer :
  Text.split " " "Bearer abc.def" = ["Bearer"; "abc.def"].
Proof. reflexivity. Qed.

Example split_no_space : Text.split " " "Bearer" = ["Bearer"].
Proof. reflexivity. Qed.

Example split_two_spaces : Text.split " " "Bearer  abc" = ["Bearer"; ""; "abc"].
Proof. reflexivity. Qed.

Example trim_both : Text.trim "  Ada Lovelace  " = "Ada Lovelace".
Proof. reflexivity. Qed.

Example lower_mixed : Text.toLowerCase "Ada@X.Com" = "ada@x.com".
Proof. reflexivity. Qed.

Lemma truthy_spec s : Text.truthy s = true ↔ s ≠ "".
Proof.
  unfold Text.truthy. destruct (String.eqb_spec s ""); simpl; split; congruence.
Qed.

Lemma toLowerCase_idem s :
  Text.toLowerCase (Text.toLowerCase s) = Text.toLowerCase s.
Proof.
  induction s as [|c r IH]; simpl; [done|]. f_equal; [|done].
  unfold Text.lower_char at 1.
  destruct (Text.is_upper (Text.lower_char c)) eqn:E; [|done].
  exfalso. revert E. unfold Text.lower_char.
  destruct (Text.is_upper c) eqn:U; [|congruence].
  unfold Text.is_upper, Text.code in *.
  apply andb_true_iff in U as [U1 U2].
  apply Nat.leb_le in U1. apply Nat.leb_le in U2.
  rewrite nat_ascii_embedding by lia.
  intros E. apply andb_true_iff in E as [_ E]. apply Nat.leb_le in E. lia.
Qed.

Lemma append_nil_l s : String.append "" s = s.
Proof. reflexivity. Qed.

Lemma append_cons c r s : String.append (String c r) s = String c (String.append r s).
Proof. reflexivity. Qed.

Lemma append_empty_r s : String.append s "" = s.
Proof.
  induction s as [|c r IH]; [done|]. by rewrite append_cons, IH.
Qed.

Lemma no_space_cons c r :
  no_space (String c r) = negb (Ascii.eqb c " ") && no_space r.
Proof. reflexivity. Qed.

(** The first two pieces of a split string, against the string itself. *)
Lemma split_shape s :
  match Text.split " " s with
  | [] => False
  | [seg] => s = seg ∧ no_space seg = true
  | seg :: t :: _ =>
      no_space seg = true ∧ no_space t = true ∧
      ∃ rest, s = String.append seg (String " " (String.append t rest)) ∧
              (rest = "" ∨ ∃ rest', rest = String " " rest')
  end.
Proof.
  induction s as [|c r IH]; simpl; [done|].
  destruct (Ascii.eqb_spec c " ") as [->|Hc].
  - destruct (Text.split " " r) as [|seg' [|t' segs']]; [done| |].
    + destruct IH as [-> Hn]. repeat split; [done|].
      exists "". split; [|by left]. by rewrite append_nil_l, append_empty_r.
    + destruct IH as (Hn & Ht & rest & -> & Hrest). repeat split; [done|].
      exists (String " " (String.append t' rest)). split; [done|]. right. eauto.
  - assert (Hneg : negb (Ascii.eqb c " ") = true).
    { destruct (Ascii.eqb_spec c " "); [done|reflexivity]. }
    destruct (Text.split " " r) as [|seg' [|t' segs']]; [done| |].
    + destruct IH as [-> Hn]. split; [done|]. by rewrite no_space_cons, Hneg.
    + destruct IH as (Hn & Ht & rest & -> & Hrest).
      split; [by rewrite no_space_cons, Hneg|]. split; [done|]. by exists rest.
Qed.

Lemma split_prefix pre s :
  no_space pre = true →
  Text.split " " (String.append pre (String " " s)) = pre :: Text.split " " s.
Proof.
  induction pre as [|c pre IH]; intros Hpre.
  - rewrite append_nil_l. reflexivity.
  - rewrite no_space_cons in Hpre. apply andb_true_iff in Hpre as [Hc Hpre].
    rewrite append_cons. cbn [Text.split].
    destruct (Ascii.eqb c " "); [discriminate Hc|]. by rewrite (IH Hpre).
Qed.

Lemma split_head t rest :
  no_space t = true →
  (rest = "" ∨ ∃ rest', rest = String " " rest') →
  ∃ segs, Text.split " " (String.append t rest) = t :: segs.
Proof.
  induction t as [|c t IH]; intros Ht Hrest.
  - rewrite append_nil_l. destruct Hrest as [->|[rest' ->]].
    + by exists [].
    + cbn [Text.split]. rewrite Ascii.eqb_refl. eauto.
  - rewrite no_space_cons in Ht. apply andb_true_iff in Ht as [Hc Ht].
    rewrite append_cons. cbn [Text.split].
    destruct (Ascii.eqb c " "); [discriminate Hc|].
    destruct (IH Ht Hrest) as [segs ->]. eauto.
Qed.

Lemma header_token_second pre t rest :
  no_space pre = true → no_space t = true →
  (rest = "" ∨ ∃ rest', rest = String " " rest') →
  header_token (Some (String.append pre (String " " (String.append t rest)))) =
  Some t.
Proof.
  intros Hpre Ht Hrest. unfold header_token.
  assert (Htruthy : Text.truthy
            (String.append pre (String " " (String.append t rest))) = true).
  { apply truthy_spec. destruct pre; [rewrite append_nil_l|rewrite append_cons];
      discriminate. }
  rewrite Htruthy, (split_prefix pre _ Hpre).
  by destruct (split_head t rest Ht Hrest) as [segs ->].
Qed.

(** ** The authentication gate *)

Section AuthGate.
Context {J : Jwt} {C : Columns}.
Variable JWT_SECRET : string.

Lemma authenticateToken_cases clock hdr :
  authenticateToken JWT_SECRET clock hdr =
  match extracted hdr with
  | None => inl (respond 401 (Error "Access token required"))
  | Some t =>
      match jwt_verify t JWT_SECRET clock with
      | inl _ => inl (respond 403 (Error "Invalid or expired token"))
      | inr user => inr user
      end
  end.
Proof.
  unfold authenticateToken, extracted.
  destruct (header_token hdr) as [t|]; [|done].
  by destruct (Text.truthy t).
Qed.

Lemma guarded_failure clock hdr r handler :
  authenticateToken JWT_SECRET clock hdr = inl r →
  guarded JWT_SECRET clock hdr handler = Ret r.
Proof. unfold guarded. by intros ->. Qed.

(** The token the gate goes on with is the one the header carries. *)
Lemma extracted_carries hdr t : extracted hdr = Some t ↔ carries hdr t.
Proof.
  split.
  - destruct hdr as [h|]; [|done]. unfold extracted, header_token.
    destruct (Text.truthy h) eqn:Hh; [|by rewrite Hh].
    pose proof (split_shape h) as Hs.
    destruct (Text.split " " h) as [|seg [|t' segs]]; [done|done|].
    simpl. destruct (Text.truthy t') eqn:Ht; [|done].
    intros [= <-]. destruct Hs as (Hseg & Hno & rest & -> & Hrest).
    exists seg, rest. by rewrite <- truthy_spec.
  - intros (scheme & rest & -> & Hscheme & Ht & Hne & Hrest).
    unfold extracted. rewrite (header_token_second scheme t rest) by done.
    apply truthy_spec in Hne. by rewrite Hne.
Qed.

(** C7. The gate answers Unauthorized exactly when the authorization
    header carries no token: there is no header, or no non-empty word
    right after its first space. It answers Forbidden exactly when the
    header carries a token that [jwt.verify] refuses (invalid, malformed
    or expired), and lets the request pass, with the identity of the
    token, when [jwt.verify] accepts it. The two kinds differ. When the
    gate answers by itself the route is that answer alone: the handler is
    not entered, no statement reaches the pool and the tables are left as
    they were. *)
Theorem gate_unauthorized_forbidden clock hdr :
  ((∀ t, ¬ carries hdr t) ↔
     ∃ r, authenticateToken JWT_SECRET clock hdr = inl r ∧
          kind_of r = Some Unauthorized) ∧
  ((∃ t e, carries hdr t ∧ jwt_verify t JWT_SECRET clock = inl e) ↔
     ∃ r, authenticateToken JWT_SECRET clock hdr = inl r ∧
          kind_of r = Some Forbidden) ∧
  (∀ t user,
     carries hdr t → jwt_verify t JWT_SECRET clock = inr user →
     authenticateToken JWT_SECRET clock hdr = inr user) ∧
  Unauthorized ≠ Forbidden ∧
  (∀ r, authenticateToken JWT_SECRET clock hdr = inl r →
     ∀ handler d,
       guarded JWT_SECRET clock hdr handler = Ret r ∧
       run clock (guarded JWT_SECRET clock hdr handler) [] d =
         {| result := r; final := d; trace := [] |}).
Proof.
  split; [|split; [|split; [|split; [discriminate|]]]].
  - rewrite authenticateToken_cases. split.
    + intros Hnone. destruct (extracted hdr) as [t|] eqn:Ht.
      * apply extracted_carries in Ht. by destruct (Hnone t).
      * eexists. split; reflexivity.
    + intros (r & Hr & Hk) t Ht. apply extracted_carries in Ht.
      rewrite Ht in Hr. destruct (jwt_verify t JWT_SECRET clock); [|done].
      injection Hr as <-. discriminate Hk.
  - rewrite authenticateToken_cases. split.
    + intros (t & e & Ht & He). apply extracted_carries in Ht.
      rewrite Ht, He. eexists. split; reflexivity.
    + intros (r & Hr & Hk). destruct (extracted hdr) as [t|] eqn:Ht.
      * destruct (jwt_verify t JWT_SECRET clock) as [e|] eqn:E; [|done].
        exists t, e. by rewrite <- extracted_carries.
      * injection Hr as <-. discriminate Hk.
  - intros t user Ht Hv. apply extracted_carries in Ht.
    by rewrite authenticateToken_cases, Ht, Hv.
  - intros r Hr handler d.
    by rewrite (guarded_failure clock hdr r handler Hr).
Qed.

(** C10. A header without a space yields no token, so the gate answers
    Unauthorized and never Forbidden; and a token the gate goes on with is
    never empty and always sits right after the first space of the header,
    ending at the next space or at the end of the header. *)
Theorem header_without_space clock h :
  (no_space h = true →
     authenticateToken JWT_SECRET clock (Some h) =
       inl (respond 401 (Error "Access token required"))) ∧
  (∀ t, extracted (Some h) = Some t →
     t ≠ "" ∧
     ∃ pre rest,
       h = String.append pre (String " " (String.append t rest)) ∧
       no_space pre = true ∧ no_space t = true ∧
       (rest = "" ∨ ∃ rest', rest = String " " rest')).
Proof.
  split.
  - intros Hn. rewrite authenticateToken_cases.
    unfold extracted, header_token.
    destruct (Text.truthy h) eqn:Hh; [|by rewrite Hh].
    pose proof (split_shape h) as Hs.
    destruct (Text.split " " h) as [|seg [|t segs]]; [done|done|].
    exfalso. destruct Hs as (_ & _ & rest & -> & _).
    clear -Hn. induction seg as [|c seg IH].
    + rewrite append_nil_l in Hn. discriminate Hn.
    + rewrite append_cons, no_space_cons in Hn.
      apply andb_true_iff in Hn as [_ Hn]. auto.
  - intros t. unfold extracted, header_token.
    destruct (Text.truthy h) eqn:Hh.
    + pose proof (split_shape h) as Hs.
      destruct (Text.split " " h) as [|seg [|t' segs]]; [done|done|].
      simpl. destruct (Text.truthy t') eqn:Ht; [|done].
      intros [= <-]. split; [by apply truthy_spec|].
      destruct Hs as (Hseg & Hno & rest & -> & Hrest). by exists seg, rest.
    + rewrite Hh. done.
Qed.

End AuthGate.

Lemma gate_unauthorized_forbidden_witness :
  (∃ r, @authenticateToken Reference.jwt Reference.secret 0
          (Some "Bearer s3cret.stale") = inl r ∧
        kind_of r = Some Forbidden) ∧
  (∃ r, @authenticateToken Reference.jwt Reference.secret 0
          (Some "Bearer") = inl r ∧
        kind_of r = Some Unauthorized).
Proof.
  split.
  - apply (proj1 (proj1 (proj2
             (@gate_unauthorized_forbidden Reference.jwt Reference.columns
                Reference.secret 0 (Some "Bearer s3cret.stale"))))).
    exists "s3cret.stale", TokenExpiredError. split; [|reflexivity].
    exists "Bearer", "". repeat split; [discriminate|by left].
  - apply (proj1 (proj1
             (@gate_unauthorized_forbidden Reference.jwt Reference.columns
                Reference.secret 0 (Some "Bearer")))).
    intros t (scheme & rest & Hh & Hscheme & _).
    injection Hh as Hh. clear -Hh Hscheme.
    assert (Hn : no_space "Bearer" = true) by reflexivity.
    rewrite Hh in Hn. clear Hh.
    induction scheme as [|c scheme IH].
    + rewrite append_nil_l in Hn. discriminate Hn.
    + rewrite append_cons, no_space_cons in Hn.
      rewrite no_space_cons in Hscheme.
      apply andb_true_iff in Hn as [_ Hn].
      apply andb_true_iff in Hscheme as [_ Hscheme]. auto.
Defined.

Lemma header_without_space_witness :
  no_space "Bearer" = true ∧
  @authenticateToken Reference.jwt Reference.secret 0 (Some "Bearer") =
    inl (respond 401 (Error "Access token required")).
Proof.
  split; [reflexivity|].
  apply (proj1 (@header_without_space Reference.jwt Reference.secret 0 "Bearer")).
  reflexivity.
Defined.

Example gate_forbidden_stale :
  @authenticateToken Reference.jwt Reference.secret 0
    (Some "Bearer s3cret.stale") =
  inl (respond 403 (Error "Invalid or expired token")).
Proof. reflexivity. Qed.

Example gate_passes :
  @authenticateToken Reference.jwt Reference.secret 0
    (Some "Bearer s3cret.admin extra") =
  inr {| user_id := 1; user_name := "admin" |}.
Proof. reflexivity. Qed.

(** ** Login *)

Lemma field_insert_eq (body : gmap string string) k v :
  field (<[k := v]> body) k = v.
Proof. unfold field. by rewrite lookup_insert_eq. Qed.

Lemma field_insert_ne (body : gmap string string) k k' v :
  k ≠ k' → field (<[k := v]> body) k' = field body k'.
Proof. intros Hk. unfold field. by rewrite lookup_insert_ne. Qed.

Lemma check_nil ok p m : check ok p m = [] ↔ ok = true.
Proof. destruct ok; simpl; split; congruence. Qed.

Lemma text_strings (body : gmap string string) k :
  text (JStr <$> body) k = field body k.
Proof. unfold text, field. rewrite lookup_fmap. by destruct (body !! k). Qed.

Section Login.
Context {B : Bcrypt} {J : Jwt} {C : Columns}.
Variable JWT_SECRET : string.

(** On a body whose values are strings the two embeddings of the route
    are the same program. *)
Lemma login_json_strings clock (body : gmap string string) :
  login_json JWT_SECRET clock (JStr <$> body) = login JWT_SECRET clock body.
Proof.
  unfold login_json, login, loginValidation_json, loginValidation.
  cbn [fst snd]. rewrite !text_strings.
  destruct (check _ "username" _ ++ check _ "password" _) eqn:Hv; [|done].
  apply app_eq_nil in Hv as [_ Hp]. apply check_nil in Hp.
  unfold text. rewrite lookup_insert_eq. cbn [fmap option_fmap option_map default toString].
  rewrite field_insert_eq. rewrite lookup_insert_ne by done.
  rewrite field_insert_ne by done. rewrite lookup_fmap.
  unfold field in *. destruct (body !! "password") as [pw|]; [done|].
  discriminate Hp.
Qed.

(** The route on a request that passes its two chains, whatever its
    password is, by what the [admins] table holds. *)
Lemma login_json_result clock body d :
  fst (loginValidation_json body) = [] →
  result (run clock (login_json JWT_SECRET clock body) [] d) =
  match administrator_json d body with
  | None => respond 401 (Error "Invalid credentials")
  | Some a =>
      match body !! "password" with
      | Some (JStr password) =>
          if compareSync password (admin_password a)
          then respond 200
                 (LoginOk "Login successful"
                    (jwt_sign {| user_id := admin_id a;
                                 user_name := admin_username a |}
                       JWT_SECRET clock)
                    {| user_id := admin_id a; user_name := admin_username a |})
          else respond 401 (Error "Invalid credentials")
      | _ => respond 500 (Error "Internal server error")
      end
  end.
Proof.
  intros Hv. unfold login_json. rewrite Hv.
  cbn [snd loginValidation_json]. unfold text at 1.
  rewrite lookup_insert_eq. cbn [fmap option_fmap option_map default toString].
  rewrite lookup_insert_ne by done.
  unfold administrator_json. simpl.
  destruct (head _) as [a|]; [|done].
  destruct (body !! "password") as [[pw|n]|]; [|done|done].
  by destruct (compareSync _ _).
Qed.

(** The route on a request that passes its two chains, by what the
    [admins] table holds. *)
Lemma login_result clock body d :
  fst (loginValidation body) = [] →
  result (run clock (login JWT_SECRET clock body) [] d) =
  match administrator d body with
  | None => respond 401 (Error "Invalid credentials")
  | Some a =>
      if compareSync (field body "password") (admin_password a)
      then respond 200
             (LoginOk "Login successful"
                (jwt_sign {| user_id := admin_id a; user_name := admin_username a |}
                   JWT_SECRET clock)
                {| user_id := admin_id a; user_name := admin_username a |})
      else respond 401 (Error "Invalid credentials")
  end.
Proof.
  intros Hv. unfold login. rewrite Hv.
  cbn [snd loginValidation]. rewrite field_insert_eq.
  rewrite field_insert_ne by done.
  unfold administrator. simpl.
  destruct (head _) as [a|]; [|done].
  by destruct (compareSync _ _).
Qed.

(** C2. A login whose password is a JSON number, not a string, and which
    passes the two chains of the route: when it names no administrator it
    is answered 401, "Invalid credentials"; when it names one,
    [bcrypt.compareSync] throws on the number and the [catch] of the route
    answers 500, "Internal server error". The two failures differ in status
    and in message: the response tells whether the administrator exists. *)
Theorem login_failure_tells_administrator clock d body n :
  body !! "password" = Some (JNum n) →
  fst (loginValidation_json body) = [] →
  let o := run clock (login_json JWT_SECRET clock body) [] d in
  (administrator_json d body = None →
     result o = respond 401 (Error "Invalid credentials") ∧
     kind_of (result o) = Some Unauthorized) ∧
  (∀ a, administrator_json d body = Some a →
     result o = respond 500 (Error "Internal server error") ∧
     kind_of (result o) = Some Internal).
Proof.
  intros Hpw Hv o. subst o. rewrite login_json_result by done. split.
  - by intros ->.
  - intros a ->. by rewrite Hpw.
Qed.

(** On bodies whose values are strings, a login that names no
    administrator and a login that names one but brings a password that
    does not match the stored digest get the same response, status and
    message: 401, "Invalid credentials". *)
Lemma login_failures_on_strings clock1 clock2 d1 d2 body1 body2 a :
  fst (loginValidation body1) = [] →
  fst (loginValidation body2) = [] →
  administrator d1 body1 = None →
  administrator d2 body2 = Some a →
  compareSync (field body2 "password") (admin_password a) = false →
  result (run clock1 (login JWT_SECRET clock1 body1) [] d1) =
    result (run clock2 (login JWT_SECRET clock2 body2) [] d2) ∧
  result (run clock1 (login JWT_SECRET clock1 body1) [] d1) =
    respond 401 (Error "Invalid credentials").
Proof.
  intros Hv1 Hv2 Hnone Hsome Hbad.
  rewrite !login_result by done. by rewrite Hnone, Hsome, Hbad.
Qed.

(** The same request against two states of the table, whether or not it
    passes the chains. *)
Lemma login_same_request clock d1 d2 body a :
  administrator d1 body = None →
  administrator d2 body = Some a →
  compareSync (field body "password") (admin_password a) = false →
  result (run clock (login JWT_SECRET clock body) [] d1) =
  result (run clock (login JWT_SECRET clock body) [] d2).
Proof.
  intros Hnone Hsome Hbad.
  destruct (fst (loginValidation body)) as [|e es] eqn:Hv.
  - rewrite !login_result by done. by rewrite Hnone, Hsome, Hbad.
  - unfold login. by rewrite Hv.
Qed.

Lemma store_serve_login st a :
  fst (snd (serve_login JWT_SECRET st a)) = counted a :: fst st.
Proof. reflexivity. Qed.

Lemma store_counts (P : Limiter.hit → Prop) `{∀ h, Decision (P h)} l :
  ∀ st,
    (length (filter P (fst st)) + length (filter (λ a, P (counted a)) l)
     ≤ length (filter P (fst (serve_logins JWT_SECRET st l))))%nat.
Proof.
  induction l as [|a l IH]; intros st.
  - simpl. lia.
  - cbn [serve_logins]. etrans; [|apply IH]. rewrite store_serve_login.
    rewrite !filter_cons. destruct (decide (P (counted a))); simpl; lia.
Qed.

(** C6. Once an origin has made five login attempts within the window of
    fifteen minutes that ends at a further attempt, that attempt is
    answered TooManyRequests: whatever its credentials, whatever the
    tables hold and whatever requests of other origins came in between;
    and the tables are not consulted. *)
Theorem login_rate_limited st before a :
  (Limiter.max ≤
     length (filter (λ b, Limiter.in_window (origin a) (at_time a) (counted b))
               before))%nat →
  let now := serve_logins JWT_SECRET st before in
  fst (serve_login JWT_SECRET now a) =
    respond 429
      (Error "Too many authentication attempts, please try again later.") ∧
  kind_of (fst (serve_login JWT_SECRET now a)) = Some TooManyRequests ∧
  snd (snd (serve_login JWT_SECRET now a)) = snd now.
Proof.
  intros Hmax now.
  assert (Hex : Limiter.exhausted (fst now) (origin a) (at_time a) = true).
  { unfold Limiter.exhausted. apply bool_decide_eq_true.
    pose proof (store_counts (Limiter.in_window (origin a) (at_time a))
                  before st) as Hc.
    fold now in Hc. lia. }
  unfold serve_login, login_route, authLimiter. cbn [fst snd]. rewrite Hex. done.
Qed.

End Login.

Lemma login_failure_tells_administrator_witness :
  let known : gmap string json :=
    <["username" := JStr "admin"]> (<["password" := JNum 123]> ∅) in
  let unknown : gmap string json :=
    <["username" := JStr "nobody"]> (<["password" := JNum 123]> ∅) in
  let d := initializeDatabase [Reference.root] in
  result (run 0 (@login_json Reference.bcrypt Reference.jwt
                   Reference.secret 0 known) [] d) =
    respond 500 (Error "Internal server error") ∧
  result (run 0 (@login_json Reference.bcrypt Reference.jwt
                   Reference.secret 0 unknown) [] d) =
    respond 401 (Error "Invalid credentials").
Proof.
  intros known unknown d. split.
  - apply (proj2 (@login_failure_tells_administrator Reference.bcrypt
                    Reference.jwt Reference.columns Reference.secret 0 d
                    known 123 eq_refl eq_refl) Reference.root).
    reflexivity.
  - apply (proj1 (@login_failure_tells_administrator Reference.bcrypt
                    Reference.jwt Reference.columns Reference.secret 0 d
                    unknown 123 eq_refl eq_refl)).
    reflexivity.
Defined.

Example login_failures_on_strings_run :
  let nobody := Reference.login_body "nobody" "guess" in
  let wrong := Reference.login_body "admin" "guess" in
  result (run 0 (@login Reference.bcrypt Reference.jwt
                   Reference.secret 0 nobody) [] (initializeDatabase [])) =
  result (run 9 (@login Reference.bcrypt Reference.jwt
                   Reference.secret 9 wrong) []
            (initializeDatabase [Reference.root])).
Proof. reflexivity. Qed.

Example login_succeeds :
  status (result (run 0 (@login Reference.bcrypt
                           Reference.jwt Reference.secret 0
                           (Reference.login_body "admin" "admin123")) []
                    (initializeDatabase [Reference.root]))) = 200.
Proof. reflexivity. Qed.

Lemma login_rate_limited_witness :
  let start := ([], initializeDatabase [Reference.root]) in
  let five := Reference.knock <$> [0; 60000; 120000; 180000; 240000] in
  let served := @serve_logins Reference.bcrypt Reference.jwt
                  Reference.columns Reference.secret start five in
  status (fst (@serve_login Reference.bcrypt Reference.jwt
                 Reference.columns Reference.secret start (Reference.knock 0))) = 200 ∧
  kind_of (fst (@serve_login Reference.bcrypt Reference.jwt
                  Reference.columns Reference.secret served (Reference.knock 899999))) =
    Some TooManyRequests.
Proof.
  intros start five served. split; [reflexivity|].
  apply (@login_rate_limited Reference.bcrypt Reference.jwt
           Reference.columns Reference.secret start five (Reference.knock 899999)).
  vm_compute. lia.
Defined.

Example login_after_window :
  let start := ([], initializeDatabase [Reference.root]) in
  let five := Reference.knock <$> [0; 60000; 120000; 180000; 240000] in
  status (fst (@serve_login Reference.bcrypt Reference.jwt
                 Reference.columns Reference.secret
                 (@serve_logins Reference.bcrypt
                    Reference.jwt Reference.columns Reference.secret
                    start five)
                 (Reference.knock 900000))) = 200.
Proof. reflexivity. Qed.

(** ** The shared validation pass *)

Lemma elem_of_check v ok p m :
  v ∈ check ok p m ↔ ok = false ∧ v = {| path := p; msg := m |}.
Proof.
  destruct ok; simpl.
  - rewrite elem_of_nil. intuition discriminate.
  - rewrite list_elem_of_singleton. intuition.
Qed.

Lemma violates_app l1 l2 p : violates (l1 ++ l2) p ↔ violates l1 p ∨ violates l2 p.
Proof.
  unfold violates. setoid_rewrite elem_of_app. split.
  - intros [m [Hm|Hm]]; [left|right]; by exists m.
  - intros [[m Hm]|[m Hm]]; exists m; auto.
Qed.

Lemma violates_check ok p' m p : violates (check ok p' m) p ↔ ok = false ∧ p = p'.
Proof.
  unfold violates. setoid_rewrite elem_of_check. split.
  - intros (m' & Hok & [= -> _]). done.
  - intros [Hok ->]. by exists m.
Qed.

Lemma violates_nil p : violates [] p ↔ False.
Proof. unfold violates. setoid_rewrite elem_of_nil. split; [by intros [? ?]|done]. Qed.

Lemma spec_phone_char_client c :
  spec_phone_char c = true → Client.phone_char c = true.
Proof.
  unfold spec_phone_char, Client.phone_char.
  rewrite !orb_true_iff. intros [[[[[Hd|Hs]|Hm]|Ho]|Hc]|Hp]; auto 10.
  apply Ascii.eqb_eq in Hs as ->. left. left. left. left. by right.
Qed.

Lemma forall_chars_impl (p q : ascii → bool) s :
  (∀ c, p c = true → q c = true) →
  Text.forall_chars p s = true → Text.forall_chars q s = true.
Proof.
  intros Hpq. induction s as [|c r IH]; simpl; [done|].
  rewrite !andb_true_iff. intros [Hc Hr]. auto.
Qed.

Section SharedValidation.
Context {V : Validator}.

(** The pass finds nothing exactly when every chain holds. *)
Lemma employeeValidation_ok body :
  fst (employeeValidation body) = [] ↔
  Text.isLength 1 (Some 50%nat) (Text.trim (field body "first_name")) = true ∧
  Text.isLength 1 (Some 50%nat) (Text.trim (field body "last_name")) = true ∧
  isEmail (field body "email") = true ∧
  Text.isLength 1 (Some 100%nat) (Text.trim (field body "position")) = true ∧
  Text.isLength 1 (Some 100%nat) (Text.trim (field body "department")) = true ∧
  isFloat_min0 (field body "salary") = true ∧
  isDate (field body "hire_date") = true ∧
  (∀ ph, body !! "phone" = Some ph → isMobilePhone ph = true) ∧
  (∀ ad, body !! "address" = Some ad →
     Text.isLength 0 (Some 200%nat) ad = true).
Proof.
  cbn [fst employeeValidation].
  rewrite !app_nil, !check_nil.
  destruct (body !! "phone") as [ph|], (body !! "address") as [ad|];
    rewrite ?check_nil; intuition (try discriminate; auto);
    match goal with H : Some _ = Some _ |- _ => injection H as <-; auto end.
Qed.

(** C9, as the code has it. On the server the phone of a payload that
    carries one is accepted exactly when the mobile-phone validator of the
    library accepts it; the pattern of digits, white space, dashes, plus
    signs and parentheses is the one of the client form, which lets pass
    every filled phone made of the characters the specification lists, and
    an empty one unchecked. *)
Theorem phone_validation body ph :
  body !! "phone" = Some ph →
  (violates (fst (employeeValidation body)) "phone" ↔ isMobilePhone ph = false) ∧
  (Client.validateForm_phone ph = None ↔
     ph = "" ∨ Text.forall_chars Client.phone_char ph = true) ∧
  (Text.forall_chars spec_phone_char ph = true →
     Client.validateForm_phone ph = None).
Proof.
  intros Hph.
  assert (Hclient : Client.validateForm_phone ph = None ↔
            ph = "" ∨ Text.forall_chars Client.phone_char ph = true).
  { unfold Client.validateForm_phone, Client.phone_pattern.
    destruct (Text.truthy ph) eqn:Ht; simpl.
    - apply truthy_spec in Ht.
      destruct (Text.forall_chars Client.phone_char ph); simpl;
        intuition discriminate.
    - split; [|done]. intros _. left.
      destruct (decide (ph = "")) as [|Hne]; [done|].
      apply truthy_spec in Hne. congruence. }
  split; [|split; [done|]].
  - cbn [fst employeeValidation]. rewrite Hph.
    rewrite !violates_app, !violates_check.
    destruct (body !! "address");
      rewrite ?violates_check, ?violates_nil; intuition discriminate.
  - intros Hs. apply Hclient. right.
    eapply forall_chars_impl; [apply spec_phone_char_client|done].
Qed.

End SharedValidation.

Lemma phone_validation_witness :
  let body := <["phone" := "+1 (415) 555-2671"]> Reference.ada in
  ¬ violates (fst (@employeeValidation Reference.validator body)) "phone" ∧
  Client.validateForm_phone "+1 (415) 555-2671" = None.
Proof.
  intros body.
  destruct (@phone_validation Reference.validator body "+1 (415) 555-2671")
    as (Hserver & _ & Hclient); [reflexivity|].
  split; [|by apply Hclient].
  intros Hv. apply Hserver in Hv. discriminate Hv.
Defined.

(** C9 as stated fails on the server: a phone made only of parentheses is
    within the characters the specification lists, the client form lets it
    pass, and the shared validation pass rejects it, since a mobile phone
    number has digits. *)
Lemma phone_lenient_rejected :
  let body := <["phone" := "()"]> Reference.ada in
  Text.forall_chars spec_phone_char "()" = true ∧
  Client.validateForm_phone "()" = None ∧
  fst (@employeeValidation Reference.validator body) =
    [{| path := "phone"; msg := "Valid phone number required" |}] ∧
  kind_of (result (run 0 (@create_employee Reference.validator body) []
                     (initializeDatabase []))) = Some ValidationFailed.
Proof. repeat split. Qed.

(** ** Running a handler *)

Lemma run_try_exec {C : Columns} {A R : Type} clock (q : query R)
    (h : sqlerr → A) k env d :
  run clock (try_exec q h k) env d =
  let rd := db_exec clock q (exec_all clock (hd [] env) d) in
  match fst rd with
  | inl e =>
      {| result := h e; final := snd rd;
         trace := [{| ev_query := AnyQ q; ev_error := Some e |}] |}
  | inr v =>
      let o := run clock (k v) (tl env) (snd rd) in
      {| result := result o; final := final o;
         trace := {| ev_query := AnyQ q; ev_error := None |} :: trace o |}
  end.
Proof.
  unfold try_exec. cbn [run].
  by destruct (db_exec clock q (exec_all clock (hd [] env) d)) as [[e|v] d2].
Qed.

(** ** Update of a missing employee *)

Section UpdateMissing.
Context {V : Validator} {C : Columns}.

(** C3, as the code has it. The shared validation pass runs before the
    employee is looked up. An update whose id identifies no employee
    fails with NotFound when its payload passes validation, and with
    ValidationFailed, without one statement sent to the pool, when it
    does not; the tables stay as they were in both cases. *)
Theorem update_missing_employee clock id body d :
  employees d !! id = None →
  let o := run clock (update_employee id body) [] d in
  final o = d ∧
  (fst (employeeValidation body) = [] →
     result o = respond 404 (Error "Employee not found") ∧
     kind_of (result o) = Some NotFound) ∧
  (fst (employeeValidation body) ≠ [] →
     kind_of (result o) = Some ValidationFailed ∧ trace o = []).
Proof.
  intros Hid o. subst o. unfold update_employee.
  destruct (fst (employeeValidation body)) as [|e es] eqn:Hv.
  - rewrite run_try_exec. cbn. rewrite Hid. cbn. done.
  - cbn. done.
Qed.

End UpdateMissing.

Lemma update_missing_employee_witness :
  let body := Reference.ada in
  kind_of (result (run 0 (@update_employee Reference.validator 7 body) []
                     (initializeDatabase []))) = Some NotFound.
Proof.
  intros body.
  apply (@update_missing_employee Reference.validator Reference.columns 0 7 body
           (initializeDatabase [])); reflexivity.
Defined.

(** C3 as stated fails: an update with an id that identifies no employee
    and a payload without a first name is answered ValidationFailed, not
    NotFound. *)
Lemma update_missing_invalid_payload :
  let body := delete "first_name" Reference.ada in
  let d := initializeDatabase [] in
  employees d !! 7 = None ∧
  kind_of (result (run 0 (@update_employee Reference.validator 7 body) [] d)) =
    Some ValidationFailed ∧
  kind_of (result (run 0 (@update_employee Reference.validator 7 body) [] d)) ≠
    Some NotFound.
Proof. repeat split. discriminate. Qed.

(** ** The tables *)

Lemma elem_of_holders e d i r :
  (i, r) ∈ holders e d ↔ employees d !! i = Some r ∧ email r = e.
Proof.
  unfold holders. rewrite list_elem_of_filter, elem_of_map_to_list. simpl. tauto.
Qed.

Lemma elem_of_other_holders e id d i r :
  (i, r) ∈ other_holders e id d ↔
  employees d !! i = Some r ∧ email r = e ∧ i ≠ id.
Proof.
  unfold other_holders. rewrite list_elem_of_filter, elem_of_holders. simpl. tauto.
Qed.

Lemma holders_nil e d :
  holders e d = [] ↔ ∀ i r, employees d !! i = Some r → email r ≠ e.
Proof.
  split.
  - intros Hnil i r Hi He.
    assert (Hin : (i, r) ∈ holders e d) by by apply elem_of_holders.
    rewrite Hnil in Hin. by apply elem_of_nil in Hin.
  - intros Hno. destruct (holders e d) as [|[i r] l] eqn:Hh; [done|].
    assert (Hin : (i, r) ∈ holders e d) by (rewrite Hh; left).
    apply elem_of_holders in Hin as [Hi He]. by destruct (Hno i r Hi).
Qed.

Lemma other_holders_nil e id d :
  other_holders e id d = [] ↔
  ∀ i r, employees d !! i = Some r → email r = e → i = id.
Proof.
  split.
  - intros Hnil i r Hi He. destruct (decide (i = id)) as [|Hne]; [done|].
    assert (Hin : (i, r) ∈ other_holders e id d)
      by by apply elem_of_other_holders.
    rewrite Hnil in Hin. by apply elem_of_nil in Hin.
  - intros Hno. destruct (other_holders e id d) as [|[i r] l] eqn:Hh; [done|].
    assert (Hin : (i, r) ∈ other_holders e id d) by (rewrite Hh; left).
    apply elem_of_other_holders in Hin as (Hi & He & Hne).
    by destruct Hne, (Hno i r Hi He).
Qed.

Lemma length_pos {A} (l : list A) : (0 <? length l)%nat = true ↔ l ≠ [].
Proof.
  destruct l as [|a l]; [split; [discriminate|congruence]|].
  split; [discriminate|reflexivity].
Qed.

Lemma row_of_email p row : row_of p = Some row → p_email p = Some (email row).
Proof.
  unfold row_of. intros Hrow.
  destruct (p_first_name p), (p_last_name p), (p_email p), (p_position p),
    (p_department p), (p_salary p), (p_hire_date p), (p_phone p),
    (p_address p); simpl in Hrow; try done.
  by injection Hrow as <-.
Qed.

Lemma email_updated_row clock old new :
  email (updated_row clock old new) = email new.
Proof.
  unfold updated_row. destruct (decide (same_data old new)) as [Hsame|]; [|done].
  apply Hsame.
Qed.

Lemma create_catch_conflict err :
  code err = Some "ER_DUP_ENTRY" → kind_of (create_catch err) = Some Conflict.
Proof. unfold create_catch, has_code. by intros ->. Qed.

Lemma update_catch_conflict err :
  code err = Some "ER_DUP_ENTRY" → kind_of (update_catch err) = Some Conflict.
Proof. unfold update_catch, has_code. by intros ->. Qed.

(** Membership in a short trace, by cases. *)
Ltac trace_cases H :=
  repeat match type of H with
    | _ ∈ [] => by apply elem_of_nil in H
    | _ ∈ _ :: _ => apply elem_of_cons in H as [->|H]
    end.

(** One awaited statement of a handler, served. *)
Ltac await := rewrite run_try_exec; cbn [hd tl exec_all db_exec fst snd].

Lemma sanitized_email `{Validator} body :
  p_email (destructure (snd (employeeValidation body))) =
  Some (normalizeEmail (field body "email")).
Proof.
  cbn [snd employeeValidation destructure p_email].
  by rewrite lookup_insert_ne, lookup_insert_ne, lookup_insert_eq.
Qed.

(** ** Conflicts *)

Section Conflicts.
Context {V : Validator} {C : Columns}.

(** C5. Whatever other requests do to the tables while a create or an
    update is served, when the pool rejects the INSERT or the UPDATE of the
    request for a duplicate key, the caller gets Conflict, not Internal. *)
Theorem storage_rejection_is_conflict clock env d :
  (∀ body,
     write_rejected (trace (run clock (create_employee body) env d)) →
     kind_of (result (run clock (create_employee body) env d)) = Some Conflict) ∧
  (∀ id body,
     write_rejected (trace (run clock (update_employee id body) env d)) →
     kind_of (result (run clock (update_employee id body) env d)) = Some Conflict).
Proof.
  split.
  - intros body (e & err & Hin & Hw & He & Hcode). revert Hin.
    unfold create_employee. destruct (fst (employeeValidation body)).
    2:{ cbn. intros Hin. trace_cases Hin. }
    rewrite run_try_exec. cbn zeta.
    destruct (db_exec clock (SelectEmployeeByEmail _) _) as [[e1|rows] d1].
    { cbn. intros Hin. trace_cases Hin. discriminate Hw. }
    cbn [fst snd]. destruct (0 <? length rows)%nat.
    { cbn. intros Hin. trace_cases Hin. discriminate Hw. }
    rewrite run_try_exec. cbn zeta.
    destruct (db_exec clock (InsertEmployee _) _) as [[e2|key] d2]; cbn;
      intros Hin; trace_cases Hin; try discriminate Hw; try discriminate He.
    injection He as <-. by apply create_catch_conflict.
  - intros id body (e & err & Hin & Hw & He & Hcode). revert Hin.
    unfold update_employee. destruct (fst (employeeValidation body)).
    2:{ cbn. intros Hin. trace_cases Hin. }
    rewrite run_try_exec. cbn zeta.
    destruct (db_exec clock (SelectEmployeeById _) _) as [[e1|rows] d1].
    { cbn. intros Hin. trace_cases Hin. discriminate Hw. }
    cbn [fst snd]. destruct (length rows =? 0)%nat.
    { cbn. intros Hin. trace_cases Hin. discriminate Hw. }
    rewrite run_try_exec. cbn zeta.
    destruct (db_exec clock (SelectEmployeeByEmailNotId _ _) _) as [[e2|dups] d2].
    { cbn. intros Hin. trace_cases Hin; discriminate Hw. }
    cbn [fst snd]. destruct (0 <? length dups)%nat.
    { cbn. intros Hin. trace_cases Hin; discriminate Hw. }
    rewrite run_try_exec. cbn zeta.
    destruct (db_exec clock (UpdateEmployee _ _) _) as [[e3|[]] d3]; cbn;
      intros Hin; trace_cases Hin; try discriminate Hw; try discriminate He.
    injection He as <-. by apply update_catch_conflict.
Qed.

End Conflicts.

Lemma storage_rejection_is_conflict_witness :
  let env := [[]; [Reference.rival]] in
  let o := run 0 (@create_employee Reference.validator Reference.ada) env
             (initializeDatabase []) in
  kind_of (result o) = Some Conflict ∧ size (employees (final o)) = 1%nat.
Proof.
  intros env o. split; [|reflexivity].
  apply (proj1 (@storage_rejection_is_conflict Reference.validator
                  Reference.columns 0 env
                  (initializeDatabase []))).
  eexists _, _. split; [|split; [|split]].
  - vm_compute. apply list_elem_of_further, list_elem_of_here.
  - reflexivity.
  - reflexivity.
  - reflexivity.
Defined.

Section UpdateConflict.
Context {V : Validator} {C : Columns}.

(** C8. An update of an existing employee A to an email that, once
    normalized, is held by another employee B leaves the row of A, and the
    tables as a whole, as they were; it is answered Conflict as soon as its
    payload passes the validation pass that precedes the check. *)
Theorem update_to_taken_email clock idA idB rowA rowB body d :
  employees d !! idA = Some rowA →
  employees d !! idB = Some rowB →
  idA ≠ idB →
  email rowB = normalizeEmail (field body "email") →
  let o := run clock (update_employee idA body) [] d in
  final o = d ∧
  employees (final o) !! idA = Some rowA ∧
  (fst (employeeValidation body) = [] →
     result o =
       respond 409 (Error "Another employee with this email already exists") ∧
     kind_of (result o) = Some Conflict).
Proof.
  intros HA HB Hne Hemail o. subst o. unfold update_employee.
  destruct (fst (employeeValidation body)) as [|e es]; [|done].
  await. rewrite HA. cbn [length Nat.eqb]. await.
  rewrite sanitized_email.
  assert (Hdup : (0 <? length (other_holders (normalizeEmail (field body "email"))
                                 idA d))%nat = true).
  { apply length_pos. intros Hnil.
    assert (Hin : (idB, rowB) ∈
              other_holders (normalizeEmail (field body "email")) idA d)
      by (apply elem_of_other_holders; auto).
    rewrite Hnil in Hin. by apply elem_of_nil in Hin. }
  rewrite Hdup. cbn. done.
Qed.

End UpdateConflict.

Lemma update_to_taken_email_witness :
  let body := <["email" := "GRACE@x.com"]> Reference.ada in
  let o := run 30 (@update_employee Reference.validator 1 body) []
             Reference.staffed in
  kind_of (result o) = Some Conflict ∧
  email <$> employees (final o) !! 1 = Some "ada@x.com".
Proof.
  intros body o.
  destruct (@update_to_taken_email Reference.validator Reference.columns
              30 1 2
              Reference.ada_row
              Reference.grace_row
              body Reference.staffed) as (_ & Hrow & Hconflict).
  - vm_compute. reflexivity.
  - vm_compute. reflexivity.
  - discriminate.
  - vm_compute. reflexivity.
  - split.
    + apply Hconflict. vm_compute. reflexivity.
    + fold o in Hrow. rewrite Hrow. vm_compute. reflexivity.
Defined.

(** ** Consistency of the tables *)

Section Consistency.
Context {C : Columns} {CL : ColumnLaws}.

Lemma db_exec_consistent clock {R : Type} (q : query R) d :
  consistent d → lower_case_write (AnyQ q) →
  consistent (snd (db_exec clock q d)).
Proof.
  intros (Hk & Hd & Hn) Hq. destruct q; cbn [db_exec snd]; try done.
  - destruct (row_of p) as [bound|] eqn:Hrow; [|done].
    destruct (held_as bound) as [refusal|held] eqn:Hheld; [done|].
    destruct (decide _) as [Hfree|]; [|done]. cbn [snd].
    pose proof (row_of_email _ _ Hrow) as Hem.
    assert (Hlow : Text.toLowerCase (email held) = email held)
      by (apply (held_lower bound); [done|by apply Hq]).
    rewrite holders_nil in Hfree. split; [|split].
    + intros i r. cbn. rewrite lookup_insert_Some.
      intros [[<- <-]|[_ Hi]]; [lia|]. apply Hk in Hi. lia.
    + intros i j r1 r2. cbn. rewrite !lookup_insert_Some.
      intros [[<- <-]|[Hi1 Hi]] [[<- <-]|[Hj1 Hj]] He; try done.
      * by destruct (Hfree j r2 Hj).
      * by destruct (Hfree i r1 Hi).
      * eauto.
    + intros i r. cbn. rewrite lookup_insert_Some.
      intros [[<- <-]|[_ Hi]]; [done|eauto].
  - destruct (row_of p) as [bound|] eqn:Hrow; [|done].
    destruct (employees d !! id) as [old|] eqn:Hold; [|done].
    destruct (held_as bound) as [refusal|held] eqn:Hheld; [done|].
    destruct (decide _) as [Hfree|]; [|done]. cbn [snd].
    pose proof (row_of_email _ _ Hrow) as Hem.
    assert (Hlow : Text.toLowerCase (email held) = email held)
      by (apply (held_lower bound); [done|by apply Hq]).
    rewrite other_holders_nil in Hfree. split; [|split].
    + intros i r. cbn. rewrite lookup_insert_Some.
      intros [[<- <-]|[_ Hi]]; eauto.
    + intros i j r1 r2. cbn. rewrite !lookup_insert_Some.
      intros [[<- <-]|[Hi1 Hi]] [[<- <-]|[Hj1 Hj]] He; try done;
        rewrite ?email_updated_row in He.
      * symmetry. eauto.
      * eauto.
      * eauto.
    + intros i r. cbn. rewrite lookup_insert_Some.
      intros [[<- <-]|[_ Hi]]; [by rewrite email_updated_row|eauto].
  - split; [|split].
    + intros i r. cbn. rewrite lookup_delete_Some. intros [_ Hi]. eauto.
    + intros i j r1 r2. cbn. rewrite !lookup_delete_Some.
      intros [_ Hi] [_ Hj]. eauto.
    + intros i r. cbn. rewrite lookup_delete_Some. intros [_ Hi]. eauto.
Qed.

Lemma exec_all_consistent clock qs :
  ∀ d, consistent d → Forall lower_case_write qs →
       consistent (exec_all clock qs d).
Proof.
  induction qs as [|[R q] qs IH]; intros d Hd Hqs; [done|].
  apply Forall_cons in Hqs as [Hq Hqs]. cbn [exec_all].
  apply IH; [|done]. by apply db_exec_consistent.
Qed.

Lemma run_consistent {A : Type} clock (p : prog A) :
  ∀ env d,
    (∀ x, query_in p x → lower_case_write x) →
    Forall (Forall lower_case_write) env →
    consistent d →
    consistent (final (run clock p env d)).
Proof.
  induction p as [a|R q k IH]; intros env d Hp Henv Hd; [done|].
  cbn [run final]. apply IH.
  - intros x Hx. apply Hp. right. eauto.
  - destruct env; [done|]. by apply Forall_cons in Henv as [_ ?].
  - apply db_exec_consistent; [|apply Hp; by left].
    apply exec_all_consistent; [done|].
    destruct env; [done|]. by apply Forall_cons in Henv as [? _].
Qed.

Lemma query_in_try_exec {A R : Type} (q : query R) h (k : R → prog A) x :
  query_in (try_exec q h k) x ↔ x = AnyQ q ∨ ∃ v, query_in (k v) x.
Proof.
  unfold try_exec. cbn [query_in]. split.
  - intros [->|[[e|v] Hr]]; [by left|done|right; eauto].
  - intros [->|[v Hv]]; [by left|]. right. by exists (inr v).
Qed.

End Consistency.

Section UniqueEmails.
Context {V : Validator} {NL : NormalizeLaws} {C : Columns} {CL : ColumnLaws}.

(** The emails the handlers write went through [normalizeEmail]. *)
Lemma handle_lower_case req x : query_in (handle req) x → lower_case_write x.
Proof.
  destruct req as [body|id body|id]; cbn [handle].
  - unfold create_employee.
    destruct (fst (employeeValidation body)); [|done].
    rewrite query_in_try_exec. intros [->|[rows Hq]]; [done|].
    destruct (0 <? length rows)%nat; [done|].
    apply query_in_try_exec in Hq as [->|[v []]].
    cbn [lower_case_write]. intros e. rewrite sanitized_email.
    intros [= <-]. apply normalize_lower.
  - unfold update_employee.
    destruct (fst (employeeValidation body)); [|done].
    rewrite query_in_try_exec. intros [->|[rows Hq]]; [done|].
    destruct (length rows =? 0)%nat; [done|].
    apply query_in_try_exec in Hq as [->|[dups Hq]]; [done|].
    destruct (0 <? length dups)%nat; [done|].
    apply query_in_try_exec in Hq as [->|[v []]].
    cbn [lower_case_write]. intros e. rewrite sanitized_email.
    intros [= <-]. apply normalize_lower.
  - unfold delete_employee.
    rewrite query_in_try_exec. intros [->|[rows Hq]]; [done|].
    destruct (length rows =? 0)%nat; [done|].
    by apply query_in_try_exec in Hq as [->|[v []]].
Qed.

Lemma issued_lower_case x : issued x → lower_case_write x.
Proof. intros [req Hreq]. by apply handle_lower_case with req. Qed.

Lemma reachable_consistent d : reachable d → consistent d.
Proof.
  induction 1 as [bootstrap|d clock req env Hd IH Henv].
  - split; [|split].
    + intros i r Hi. cbn in Hi. by rewrite lookup_empty in Hi.
    + intros i j r1 r2 Hi. cbn in Hi. by rewrite lookup_empty in Hi.
    + intros i r Hi. cbn in Hi. by rewrite lookup_empty in Hi.
  - apply run_consistent; [apply handle_lower_case| |done].
    eapply Forall_impl; [done|]. intros qs Hqs.
    eapply Forall_impl; [done|]. apply issued_lower_case.
Qed.

(** C1, as the code has it. In every state of [employees] the server can
    bring about, no two rows hold emails that are equal up to letter case.
    There, a create request whose email differs by letter case at most from
    a stored one that [normalizeEmail] would leave as it is inserts
    nothing, and fails with Conflict when it passes validation. This
    relies on [normalizeEmail] giving lower case and not telling letter
    case apart, and on the column keeping lower case. *)
Theorem emails_unique_up_to_case d :
  reachable d →
  (∀ i j r1 r2,
     employees d !! i = Some r1 → employees d !! j = Some r2 →
     Text.toLowerCase (email r1) = Text.toLowerCase (email r2) → i = j) ∧
  (∀ clock body i r,
     employees d !! i = Some r →
     Text.toLowerCase (field body "email") = Text.toLowerCase (email r) →
     normalizeEmail (email r) = email r →
     let o := run clock (create_employee body) [] d in
     final o = d ∧
     (fst (employeeValidation body) = [] →
        result o =
          respond 409 (Error "Employee with this email already exists") ∧
        kind_of (result o) = Some Conflict)).
Proof.
  intros Hreach. destruct (reachable_consistent d Hreach) as (Hk & Hd & Hn).
  split.
  - intros i j r1 r2 Hi Hj Hcase. apply (Hd i j r1 r2 Hi Hj).
    by rewrite <- (Hn i r1 Hi), <- (Hn j r2 Hj).
  - intros clock body i r Hi Hcase Hfixed o. subst o. unfold create_employee.
    destruct (fst (employeeValidation body)) as [|e es]; [|done].
    await. rewrite sanitized_email.
    assert (Hheld : (0 <? length (holders (normalizeEmail (field body "email")) d))%nat
                    = true).
    { apply length_pos. intros Hnil. rewrite holders_nil in Hnil.
      apply (Hnil i r Hi). rewrite <- Hfixed at 1. symmetry.
      by apply normalize_case. }
    rewrite Hheld. done.
Qed.

End UniqueEmails.

Lemma reference_normalize_laws : @NormalizeLaws Reference.validator.
Proof.
  split; cbn [normalizeEmail Reference.validator].
  - done.
  - apply toLowerCase_idem.
Qed.

(** The laws also hold of a [normalizeEmail] that takes subaddresses
    off, and so does not leave its own results alone. *)
Lemma toLowerCase_cons c r :
  Text.toLowerCase (String c r) = String c r ↔
  Text.lower_char c = c ∧ Text.toLowerCase r = r.
Proof. cbn [Text.toLowerCase]. split; [by intros [= -> ->]|by intros [-> ->]]. Qed.

Lemma toLowerCase_append a b :
  Text.toLowerCase a = a → Text.toLowerCase b = b →
  Text.toLowerCase (String.append a b) = String.append a b.
Proof.
  intros Ha Hb. induction a as [|c a IH]; [by rewrite !append_nil_l|].
  apply toLowerCase_cons in Ha as [Hc Ha]. rewrite append_cons.
  apply toLowerCase_cons. auto.
Qed.

Lemma toLowerCase_split sep s :
  Text.toLowerCase s = s →
  Forall (λ piece, Text.toLowerCase piece = piece) (Text.split sep s).
Proof.
  induction s as [|c r IH]; intros Hs; [by repeat constructor|].
  apply toLowerCase_cons in Hs as [Hc Hr]. specialize (IH Hr).
  cbn [Text.split]. destruct (Ascii.eqb c sep); [by constructor|].
  destruct (Text.split sep r) as [|seg segs].
  - constructor; [|constructor]. by apply toLowerCase_cons.
  - apply Forall_cons in IH as [Hseg Hsegs]. constructor; [|done].
    by apply toLowerCase_cons.
Qed.

Lemma toLowerCase_join sep pieces :
  Text.toLowerCase sep = sep →
  Forall (λ piece, Text.toLowerCase piece = piece) pieces →
  Text.toLowerCase (Reference.join sep pieces) = Reference.join sep pieces.
Proof.
  intros Hsep. induction 1 as [|piece more Hpiece Hmore IH]; [done|].
  cbn [Reference.join]. destruct more as [|next more]; [done|].
  by repeat apply toLowerCase_append.
Qed.

Lemma Forall_removelast {A} (P : A → Prop) l :
  Forall P l → Forall P (removelast l).
Proof.
  induction 1 as [|x l Hx Hl IH]; [constructor|].
  cbn [removelast]. destruct l; [constructor|by constructor].
Qed.

Lemma yahoo_normalize_laws : @NormalizeLaws Reference.yahoo.
Proof.
  split; cbn [normalizeEmail Reference.yahoo]; unfold Reference.normalize_yahoo.
  - by intros a b ->.
  - intros a.
    pose proof (toLowerCase_split "@" _ (toLowerCase_idem a)) as Hparts.
    destruct (Text.split "@" (Text.toLowerCase a)) as [|user [|domain [|? ?]]];
      try apply toLowerCase_idem.
    destruct (String.eqb domain "yahoo.com"); [|apply toLowerCase_idem].
    apply Forall_cons in Hparts as [Huser _].
    apply toLowerCase_append; [|done]. unfold Reference.remove_subaddress.
    pose proof (toLowerCase_split "-" user Huser) as Hcomponents.
    destruct (Text.split "-" user) as [|first [|second rest]]; [done|done|].
    apply toLowerCase_join; [done|]. by apply Forall_removelast.
Qed.

Example yahoo_normalize_twice :
  Reference.normalize_yahoo "A-B-C@Yahoo.com" = "a-b@yahoo.com" ∧
  Reference.normalize_yahoo "a-b@yahoo.com" = "a@yahoo.com" ∧
  Reference.normalize_yahoo "Ada@X.com" = "ada@x.com".
Proof. vm_compute. repeat split. Qed.

Lemma reference_column_laws : @ColumnLaws Reference.columns.
Proof.
  split. intros r r'. cbn [held_as Reference.columns].
  destruct (Reference.in_bounds r); [|done]. by intros [= <-].
Qed.

Lemma staffed_reachable :
  @reachable Reference.validator Reference.columns Reference.staffed.
Proof.
  unfold Reference.staffed.
  apply (@reach_serve Reference.validator _ _ 20 (Create Reference.grace) []);
    [|constructor].
  apply (@reach_serve Reference.validator _ _ 10 (Create Reference.ada) []);
    [|constructor].
  apply reach_start.
Qed.

Example staffed_rows :
  employees Reference.staffed !! 1 = Some Reference.ada_row ∧
  employees Reference.staffed !! 2 = Some Reference.grace_row ∧
  next_id Reference.staffed = 3.
Proof. vm_compute. repeat split. Qed.

Lemma emails_unique_up_to_case_witness :
  let body := <["email" := "ADA@x.COM"]> Reference.grace in
  let o := run 40 (@create_employee Reference.validator body) []
             Reference.staffed in
  final o = Reference.staffed ∧ kind_of (result o) = Some Conflict.
Proof.
  intros body o.
  destruct (@emails_unique_up_to_case Reference.validator
              reference_normalize_laws Reference.columns
              reference_column_laws Reference.staffed staffed_reachable)
    as [_ Hcreate].
  destruct (Hcreate 40 body 1 Reference.ada_row) as [Hfinal Hconflict].
  - vm_compute. reflexivity.
  - vm_compute. reflexivity.
  - vm_compute. reflexivity.
  - split; [exact Hfinal|]. apply Hconflict. vm_compute. reflexivity.
Defined.

(** C1 as stated fails. [normalizeEmail] takes the last [-tag] off an
    address at yahoo.com each time it is applied: the email stored for
    [a-b-c@yahoo.com] is [a-b@yahoo.com]; a create with [A-B@yahoo.com],
    which differs from the stored email by letter case only, is compared
    and stored as [a@yahoo.com], is answered 201 and adds a row. *)
Lemma case_variant_of_stored_email_created :
  let first := <["email" := "a-b-c@yahoo.com"]> Reference.ada in
  let second := <["email" := "A-B@yahoo.com"]> Reference.ada in
  let d := final (run 10 (@create_employee Reference.yahoo first) []
                    (initializeDatabase [])) in
  let o := run 20 (@create_employee Reference.yahoo second) [] d in
  @reachable Reference.yahoo Reference.columns d ∧
  email <$> employees d !! 1 = Some "a-b@yahoo.com" ∧
  Text.toLowerCase "A-B@yahoo.com" = Text.toLowerCase "a-b@yahoo.com" ∧
  fst (@employeeValidation Reference.yahoo second) = [] ∧
  status (result o) = 201 ∧
  kind_of (result o) ≠ Some Conflict ∧
  email <$> employees (final o) !! 2 = Some "a@yahoo.com" ∧
  size (employees (final o)) = 2%nat.
Proof.
  intros first second d o. split.
  - apply (@reach_serve Reference.yahoo _ _ 10 (Create first) []);
      [|constructor].
    apply reach_start.
  - vm_compute. repeat split. discriminate.
Qed.

(** ** Create *)

Section CreateEmployee.
Context {V : Validator} {C : Columns}.

Lemma sanitized_untouched body k :
  k ≠ "first_name" → k ≠ "last_name" → k ≠ "email" → k ≠ "position" →
  k ≠ "department" →
  snd (employeeValidation body) !! k = body !! k.
Proof.
  intros. cbn [snd employeeValidation]. by rewrite !lookup_insert_ne.
Qed.

Lemma sanitized_values_bound body :
  complete body →
  row_of (destructure (snd (employeeValidation body))) =
  Some (sanitized_values body).
Proof.
  intros ([sa Hsa] & [hd Hhd] & [ph Hph] & [ad Had]).
  unfold row_of, destructure, sanitized_values, field.
  cbn [p_first_name p_last_name p_email p_position p_department p_salary
       p_hire_date p_phone p_address].
  rewrite !sanitized_untouched by done. rewrite Hsa, Hhd, Hph, Had.
  cbn [snd employeeValidation].
  repeat first [rewrite lookup_insert_eq | rewrite lookup_insert_ne by done].
  reflexivity.
Qed.

(** A successful create, step by step. *)
Lemma run_create clock body held d :
  fst (employeeValidation body) = [] →
  complete body →
  held_as (sanitized_values body) = inr held →
  holders (normalizeEmail (field body "email")) d = [] →
  holders (email held) d = [] →
  let o := run clock (create_employee body) [] d in
  result o =
    respond 201
      (Created "Employee created successfully"
         ((JStr <$> snd (employeeValidation body)) ∪
            {[ "id" := JNum (next_id d) ]})) ∧
  final o = {| admins := admins d;
               employees := <[next_id d := stamp clock clock held]> (employees d);
               next_id := next_id d + 1 |}.
Proof.
  intros Hv Hall Hheld Hfree Hfree' o. subst o. unfold create_employee.
  rewrite Hv. await. rewrite sanitized_email, Hfree. cbn [length Nat.ltb Nat.leb].
  await. rewrite (sanitized_values_bound body Hall), Hheld.
  rewrite decide_True by done. done.
Qed.

(** A create whose values do not go into their columns: the statement is
    refused, nothing is inserted, and the answer is the one of the
    [catch]. *)
Lemma run_create_refused clock body refusal d :
  fst (employeeValidation body) = [] →
  complete body →
  held_as (sanitized_values body) = inl refusal →
  holders (normalizeEmail (field body "email")) d = [] →
  let o := run clock (create_employee body) [] d in
  result o = create_catch refusal ∧ final o = d.
Proof.
  intros Hv Hall Hheld Hfree o. subst o. unfold create_employee.
  rewrite Hv. await. rewrite sanitized_email, Hfree. cbn [length Nat.ltb Nat.leb].
  await. by rewrite (sanitized_values_bound body Hall), Hheld.
Qed.

(** C4, as the code has it. A create request that carries all its fields
    and passes validation, whose values go into the columns of the table,
    with an email that no row holds, neither as normalized nor as its
    column holds it, succeeds: one row is added under a key not used
    before, with the fields of the payload as the sanitizers leave them
    (names, position and department trimmed, the email normalized) and as
    the columns hold them, and both timestamps set to the current time.
    The record sent back is the sanitized payload, field by field, with the
    new key under ["id"] when the payload has no ["id"] of its own; the
    timestamps are in the table only: the record has a ["created_at"] or an
    ["updated_at"] only if the payload brought one. *)
Theorem create_returns_sanitized_payload clock body held d :
  fst (employeeValidation body) = [] →
  complete body →
  held_as (sanitized_values body) = inr held →
  holders (normalizeEmail (field body "email")) d = [] →
  holders (email held) d = [] →
  well_keyed d →
  let o := run clock (create_employee body) [] d in
  let saved := snd (employeeValidation body) in
  ∃ returned,
    result o = respond 201 (Created "Employee created successfully" returned) ∧
    employees d !! next_id d = None ∧
    final o = {| admins := admins d;
                 employees := <[next_id d := stamp clock clock held]> (employees d);
                 next_id := next_id d + 1 |} ∧
    (∀ k, k ≠ "id" → returned !! k = JStr <$> saved !! k) ∧
    (body !! "id" = None → returned !! "id" = Some (JNum (next_id d))) ∧
    (body !! "created_at" = None → returned !! "created_at" = None) ∧
    (body !! "updated_at" = None → returned !! "updated_at" = None).
Proof.
  intros Hv Hall Hheld Hfree Hfree' Hkeys o saved. subst o saved.
  destruct (run_create clock body held d Hv Hall Hheld Hfree Hfree')
    as [Hres Hfin].
  rewrite Hres, Hfin.
  eexists. split; [reflexivity|].
  assert (Hother : ∀ k, k ≠ "id" →
            ((JStr <$> snd (employeeValidation body)) ∪
               ({[ "id" := JNum (next_id d) ]} : gmap string json)) !! k =
            JStr <$> snd (employeeValidation body) !! k).
  { intros k Hk. rewrite lookup_union, lookup_singleton_ne by done.
    rewrite lookup_fmap. by destruct (snd (employeeValidation body) !! k). }
  split; [|split; [done|split; [exact Hother|split; [|split]]]].
  - destruct (employees d !! next_id d) as [r|] eqn:Hr; [|done].
    apply Hkeys in Hr. lia.
  - intros Hid. rewrite lookup_union, lookup_fmap.
    rewrite sanitized_untouched, Hid by done. by rewrite lookup_singleton_eq.
  - intros Hnone. rewrite Hother by done.
    by rewrite sanitized_untouched, Hnone.
  - intros Hnone. rewrite Hother by done.
    by rewrite sanitized_untouched, Hnone.
Qed.

End CreateEmployee.

Lemma create_returns_sanitized_payload_witness :
  let o := run 10 (@create_employee Reference.validator Reference.ada) []
             (initializeDatabase []) in
  ∃ returned,
    result o = respond 201 (Created "Employee created successfully" returned) ∧
    returned !! "id" = Some (JNum 1) ∧
    employees (final o) !! 1 = Some Reference.ada_row.
Proof.
  intros o.
  destruct (@create_returns_sanitized_payload Reference.validator
              Reference.columns 10 Reference.ada
              (stamp 0 0 Reference.ada_row) (initializeDatabase []))
    as (returned & Hres & _ & Hfinal & _ & Hid & _).
  - reflexivity.
  - repeat split; eexists; reflexivity.
  - vm_compute. reflexivity.
  - reflexivity.
  - reflexivity.
  - intros i r Hi. cbn in Hi. by rewrite lookup_empty in Hi.
  - exists returned. split; [exact Hres|]. split; [by apply Hid|].
    fold o in Hfinal. rewrite Hfinal. cbn. apply lookup_insert_eq.
Defined.

(** C4 as stated fails: for a payload that passes validation, with an email
    no row holds, the create succeeds, but the record sent back has neither
    a created-at nor an updated-at, and its email is the normalized one, not
    the one of the payload. *)
Lemma create_record_not_the_input :
  let d := initializeDatabase [] in
  let o := run 10 (@create_employee Reference.validator Reference.ada) [] d in
  fst (@employeeValidation Reference.validator Reference.ada) = [] ∧
  holders (@normalizeEmail Reference.validator (field Reference.ada "email")) d = [] ∧
  ∃ returned,
    result o = respond 201 (Created "Employee created successfully" returned) ∧
    returned !! "created_at" = None ∧
    returned !! "updated_at" = None ∧
    Reference.ada !! "email" = Some "Ada@X.com" ∧
    returned !! "email" = Some (JStr "ada@x.com").
Proof.
  intros d o. split; [reflexivity|]. split; [reflexivity|].
  eexists. repeat split.
Qed.

(** A payload that passes validation with a salary of nine digits: the
    column does not take it, and the create is answered Internal. *)
Example create_salary_out_of_range :
  let body := <["salary" := "100000000"]> Reference.ada in
  let o := run 10 (@create_employee Reference.validator body) []
             (initializeDatabase []) in
  fst (@employeeValidation Reference.validator body) = [] ∧
  result o = respond 500 (Error "Failed to create employee") ∧
  final o = initializeDatabase [].
Proof. vm_compute. repeat split. Qed.

(** ** Further properties of the routes *)

Section ReadAndDelete.
Context {C : Columns}.

Lemma run_get_employee clock id d :
  run clock (get_employee id) [] d =
  {| result := match employees d !! id with
               | Some r => respond 200 (EmployeeRow id r)
               | None => respond 404 (Error "Employee not found")
               end;
     final := d;
     trace := [{| ev_query := AnyQ (SelectEmployeeById id); ev_error := None |}] |}.
Proof. unfold get_employee. await. by destruct (employees d !! id). Qed.

Lemma run_delete_missing clock id d :
  employees d !! id = None →
  run clock (delete_employee id) [] d =
  {| result := respond 404 (Error "Employee not found");
     final := d;
     trace := [{| ev_query := AnyQ (SelectEmployeeById id); ev_error := None |}] |}.
Proof. intros Hid. unfold delete_employee. await. by rewrite Hid. Qed.

Lemma run_delete_existing clock id row d :
  employees d !! id = Some row →
  run clock (delete_employee id) [] d =
  {| result := respond 200 (Message "Employee deleted successfully");
     final := {| admins := admins d;
                 employees := delete id (employees d);
                 next_id := next_id d |};
     trace := [{| ev_query := AnyQ (SelectEmployeeById id); ev_error := None |};
               {| ev_query := AnyQ (DeleteEmployee id); ev_error := None |}] |}.
Proof.
  intros Hid. unfold delete_employee. await. rewrite Hid.
  cbn [length Nat.eqb]. await. reflexivity.
Qed.

(** X1. Delete of an existing employee: the request is acknowledged, the row
    of that id is gone, every other row, the administrators and the counter
    of ids stay as they were. *)
Theorem delete_removes_only_that_row clock id row d :
  employees d !! id = Some row →
  let o := run clock (delete_employee id) [] d in
  result o = respond 200 (Message "Employee deleted successfully") ∧
  employees (final o) !! id = None ∧
  (∀ j, j ≠ id → employees (final o) !! j = employees d !! j) ∧
  admins (final o) = admins d ∧
  next_id (final o) = next_id d.
Proof.
  intros Hid o. subst o. rewrite (run_delete_existing clock id row d Hid).
  cbn [result final employees admins next_id].
  split; [done|]. split; [apply lookup_delete_eq|].
  split; [|done]. intros j Hj. by apply lookup_delete_ne.
Qed.

(** X2. Delete of an id that identifies no employee answers NotFound and
    changes nothing; so does a second delete of any id, whether or not the
    first one found the employee. *)
Theorem delete_again_not_found clock1 clock2 id d :
  (employees d !! id = None →
     result (run clock1 (delete_employee id) [] d) =
       respond 404 (Error "Employee not found") ∧
     final (run clock1 (delete_employee id) [] d) = d) ∧
  (let o1 := run clock1 (delete_employee id) [] d in
   let o2 := run clock2 (delete_employee id) [] (final o1) in
   result o2 = respond 404 (Error "Employee not found") ∧
   kind_of (result o2) = Some NotFound ∧
   final o2 = final o1).
Proof.
  split.
  - intros Hid. by rewrite (run_delete_missing clock1 id d Hid).
  - intros o1 o2. subst o1 o2.
    destruct (employees d !! id) as [row|] eqn:Hid.
    + rewrite (run_delete_existing clock1 id row d Hid). cbn [final].
      rewrite run_delete_missing; [done|]. cbn. apply lookup_delete_eq.
    + rewrite (run_delete_missing clock1 id d Hid). cbn [final].
      by rewrite (run_delete_missing clock2 id d Hid).
Qed.

End ReadAndDelete.

Section MoreRoutes.
Context {V : Validator} {C : Columns}.

(** X4. The same create request sent twice, nothing else in between: the
    first, whose values go into their columns and whose email no row
    holds, is answered 201; the second Conflict, whether the row of the
    first is found by the check of the route or by the constraint of the
    table; and the second changes nothing. *)
Theorem create_twice_conflicts clock1 clock2 body held d :
  fst (employeeValidation body) = [] →
  complete body →
  held_as (sanitized_values body) = inr held →
  holders (normalizeEmail (field body "email")) d = [] →
  holders (email held) d = [] →
  let o1 := run clock1 (create_employee body) [] d in
  let o2 := run clock2 (create_employee body) [] (final o1) in
  status (result o1) = 201 ∧
  result o2 = respond 409 (Error "Employee with this email already exists") ∧
  final o2 = final o1.
Proof.
  intros Hv Hall Hheld Hfree Hfree' o1 o2. subst o1 o2.
  destruct (run_create clock1 body held d Hv Hall Hheld Hfree Hfree')
    as [Hres Hfin].
  rewrite Hres, Hfin. split; [done|].
  set (d1 := {| admins := admins d;
                employees := <[next_id d := stamp clock1 clock1 held]>
                               (employees d);
                next_id := next_id d + 1 |}).
  assert (Htaken : holders (email held) d1 ≠ []).
  { intros Hnil. rewrite holders_nil in Hnil.
    apply (Hnil (next_id d) (stamp clock1 clock1 held)); [|done].
    cbn. apply lookup_insert_eq. }
  unfold create_employee. rewrite Hv. await. rewrite sanitized_email.
  destruct (0 <? length (holders (normalizeEmail (field body "email")) d1))%nat
    eqn:Hfound; [done|].
  await. rewrite (sanitized_values_bound body Hall), Hheld.
  by rewrite decide_False by done.
Qed.

(** X5. What create stores is what get-by-id returns: after a successful
    create, a get of the assigned id answers 200 with the values of the
    sanitized payload as the columns of the table hold them, stamped with
    the time of the create. *)
Theorem create_then_get clock1 clock2 body held d :
  fst (employeeValidation body) = [] →
  complete body →
  held_as (sanitized_values body) = inr held →
  holders (normalizeEmail (field body "email")) d = [] →
  holders (email held) d = [] →
  let o1 := run clock1 (create_employee body) [] d in
  let o2 := run clock2 (get_employee (next_id d)) [] (final o1) in
  result o2 =
    respond 200 (EmployeeRow (next_id d) (stamp clock1 clock1 held)) ∧
  final o2 = final o1.
Proof.
  intros Hv Hall Hheld Hfree Hfree' o1 o2. subst o1 o2.
  destruct (run_create clock1 body held d Hv Hall Hheld Hfree Hfree')
    as [_ Hfin].
  rewrite Hfin, run_get_employee. cbn [result final employees].
  by rewrite lookup_insert_eq.
Qed.

(** X6. Update of an existing employee with a payload that carries all its
    fields and passes validation, whose values go into their columns, when
    no other employee holds its email (the employee itself may): the
    request is acknowledged and the row keeps its creation time. When the
    values are those the row holds already, the row is left as it is, its
    update time included; otherwise it holds the values of the sanitized
    payload as the columns hold them and gets the current time as update
    time. The other rows and the counter of ids stay as they were. *)
Theorem update_replaces_row clock id old body held d :
  fst (employeeValidation body) = [] →
  complete body →
  employees d !! id = Some old →
  held_as (sanitized_values body) = inr held →
  (∀ j r, employees d !! j = Some r →
          email r = normalizeEmail (field body "email") → j = id) →
  (∀ j r, employees d !! j = Some r → email r = email held → j = id) →
  let o := run clock (update_employee id body) [] d in
  let row := updated_row clock old held in
  result o = respond 200 (Message "Employee updated successfully") ∧
  employees (final o) !! id = Some row ∧
  created_at row = created_at old ∧
  (same_data old held → row = old) ∧
  (¬ same_data old held → same_data row held ∧ updated_at row = clock) ∧
  (∀ j, j ≠ id → employees (final o) !! j = employees d !! j) ∧
  next_id (final o) = next_id d.
Proof.
  intros Hv Hall Hold Hheld Hothers Hothers' o row. subst o row.
  unfold update_employee.
  rewrite Hv. await. rewrite Hold. cbn [length Nat.eqb]. await.
  rewrite sanitized_email.
  assert (Hnone : other_holders (normalizeEmail (field body "email")) id d = [])
    by by apply other_holders_nil.
  assert (Hnone' : other_holders (email held) id d = [])
    by by apply other_holders_nil.
  rewrite Hnone. cbn [length Nat.ltb Nat.leb]. await.
  rewrite (sanitized_values_bound body Hall), Hold, Hheld.
  rewrite decide_True by done.
  cbn [fst snd run result final employees next_id].
  split; [done|]. split; [apply lookup_insert_eq|].
  unfold updated_row. destruct (decide (same_data old held)) as [Hsame|Hdiff].
  - split; [done|]. split; [done|]. split; [done|].
    split; [|done]. intros j Hj. by apply lookup_insert_ne.
  - split; [done|]. split; [done|]. split; [intros _; by repeat split|].
    split; [|done]. intros j Hj. by apply lookup_insert_ne.
Qed.

End MoreRoutes.

Lemma delete_removes_only_that_row_witness :
  let o := run 30 (delete_employee 1) [] Reference.staffed in
  employees (final o) !! 1 = None ∧
  employees (final o) !! 2 = employees Reference.staffed !! 2.
Proof.
  intros o.
  destruct (delete_removes_only_that_row 30 1
              Reference.ada_row
              Reference.staffed) as (_ & Hgone & Hrest & _).
  - vm_compute. reflexivity.
  - split; [exact Hgone|]. by apply Hrest.
Defined.

Lemma delete_again_not_found_witness :
  let o1 := run 30 (delete_employee 1) [] Reference.staffed in
  kind_of (result (run 31 (delete_employee 1) [] (final o1))) = Some NotFound ∧
  result (run 30 (delete_employee 9) [] Reference.staffed) =
    respond 404 (Error "Employee not found").
Proof.
  intros o1.
  destruct (delete_again_not_found 30 31 1 Reference.staffed) as [_ Htwice].
  destruct (delete_again_not_found 30 31 9 Reference.staffed) as [Hmissing _].
  split; [apply Htwice|]. apply Hmissing. vm_compute. reflexivity.
Defined.

Lemma create_twice_conflicts_witness :
  let o1 := run 10 (@create_employee Reference.validator Reference.ada) []
              (initializeDatabase []) in
  kind_of (result (run 11 (@create_employee Reference.validator Reference.ada) []
                     (final o1))) = Some Conflict.
Proof.
  intros o1.
  destruct (@create_twice_conflicts Reference.validator Reference.columns
              10 11 Reference.ada (stamp 0 0 Reference.ada_row)
              (initializeDatabase [])) as (_ & Hsecond & _).
  - vm_compute. reflexivity.
  - repeat split; eexists; vm_compute; reflexivity.
  - vm_compute. reflexivity.
  - vm_compute. reflexivity.
  - vm_compute. reflexivity.
  - fold o1 in Hsecond. by rewrite Hsecond.
Defined.

Lemma create_then_get_witness :
  let o1 := run 10 (@create_employee Reference.validator Reference.ada) []
              (initializeDatabase []) in
  result (run 11 (get_employee 1) [] (final o1)) =
    respond 200 (EmployeeRow 1 Reference.ada_row) ∧
  Reference.ada !! "salary" = Some "5000" ∧
  salary Reference.ada_row = "5000.00".
Proof.
  intros o1.
  destruct (@create_then_get Reference.validator Reference.columns
              10 11 Reference.ada (stamp 0 0 Reference.ada_row)
              (initializeDatabase [])) as [Hget _].
  - vm_compute. reflexivity.
  - repeat split; eexists; vm_compute; reflexivity.
  - vm_compute. reflexivity.
  - vm_compute. reflexivity.
  - vm_compute. reflexivity.
  - split; [exact Hget|]. split; reflexivity.
Defined.

Lemma update_replaces_row_witness :
  let body := <["salary" := "6000"]> Reference.ada in
  let o := run 30 (@update_employee Reference.validator 1 body) []
             Reference.staffed in
  let again := run 40 (@update_employee Reference.validator 1 body) []
                 (final o) in
  status (result o) = 200 ∧
  salary <$> employees (final o) !! 1 = Some "6000.00" ∧
  created_at <$> employees (final o) !! 1 = Some 10 ∧
  updated_at <$> employees (final o) !! 1 = Some 30 ∧
  status (result again) = 200 ∧
  final again = final o.
Proof.
  intros body o again.
  set (held := {| first_name := "Ada"; last_name := "Lovelace";
                  email := "ada@x.com"; position := "Engineer";
                  department := "Research"; salary := "6000.00";
                  hire_date := "2024-01-15"; phone := Some "+447911123456";
                  address := Some "12 St James Square";
                  created_at := 0; updated_at := 0 |}).
  destruct (@update_replaces_row Reference.validator Reference.columns 30 1
              Reference.ada_row body held Reference.staffed)
    as (Hres & Hrow & _).
  - vm_compute. reflexivity.
  - repeat split; eexists; vm_compute; reflexivity.
  - vm_compute. reflexivity.
  - vm_compute. reflexivity.
  - intros j r Hj He.
    destruct (@reachable_consistent Reference.validator reference_normalize_laws
                Reference.columns reference_column_laws
                Reference.staffed staffed_reachable) as (_ & Hdistinct & _).
    apply (Hdistinct j 1 r Reference.ada_row);
      [exact Hj|vm_compute; reflexivity|].
    rewrite He. vm_compute. reflexivity.
  - intros j r Hj He.
    destruct (@reachable_consistent Reference.validator reference_normalize_laws
                Reference.columns reference_column_laws
                Reference.staffed staffed_reachable) as (_ & Hdistinct & _).
    apply (Hdistinct j 1 r Reference.ada_row);
      [exact Hj|vm_compute; reflexivity|].
    rewrite He. reflexivity.
  - fold o in Hres, Hrow. rewrite Hres, Hrow.
    split; [reflexivity|]. split; [vm_compute; reflexivity|].
    split; [vm_compute; reflexivity|]. split; [vm_compute; reflexivity|].
    vm_compute. split; reflexivity.
Defined.

(** ** Further properties of the validation chains *)

Lemma ltrim_blank s :
  Text.forall_chars Text.is_whitespace s = true → Text.ltrim s = "".
Proof.
  induction s as [|c r IH]; [done|]. cbn [Text.forall_chars Text.ltrim].
  intros Hs. apply andb_true_iff in Hs as [Hc Hr]. rewrite Hc. auto.
Qed.

Lemma trim_blank s :
  Text.forall_chars Text.is_whitespace s = true → Text.trim s = "".
Proof. intros Hs. unfold Text.trim. by rewrite (ltrim_blank s Hs). Qed.

Lemma path_check_sublist ok p m : (path <$> check ok p m) `sublist_of` [p].
Proof. destruct ok; cbn; [apply sublist_nil_l|done]. Qed.

Section MoreValidation.
Context {V : Validator} {C : Columns}.

(** X7. The violations of the shared validation pass name each field at most
    once, in the order of the chains. *)
Theorem violations_follow_the_chains body :
  (path <$> fst (employeeValidation body)) `sublist_of`
  ["first_name"; "last_name"; "email"; "position"; "department"; "salary";
   "hire_date"; "phone"; "address"].
Proof.
  cbn [fst employeeValidation]. rewrite !fmap_app.
  change ["first_name"; "last_name"; "email"; "position"; "department";
          "salary"; "hire_date"; "phone"; "address"]
    with (["first_name"] ++ ["last_name"] ++ ["email"] ++ ["position"] ++
          ["department"] ++ ["salary"] ++ ["hire_date"] ++ ["phone"] ++
          ["address"]).
  repeat (apply sublist_app; [apply path_check_sublist|]).
  apply sublist_app.
  - destruct (body !! "phone"); [apply path_check_sublist|apply sublist_nil_l].
  - destruct (body !! "address"); [apply path_check_sublist|apply sublist_nil_l].
Qed.

(** X8. A first name, last name, position or department that is missing, empty
    or made of white space only is reported as a violation of its field,
    whatever the other fields hold. *)
Theorem blank_text_is_reported body k :
  k ∈ ["first_name"; "last_name"; "position"; "department"] →
  Text.forall_chars Text.is_whitespace (field body k) = true →
  violates (fst (employeeValidation body)) k.
Proof.
  intros Hk Hblank. apply trim_blank in Hblank.
  cbn [fst employeeValidation].
  rewrite !violates_app, !violates_check.
  repeat (apply elem_of_cons in Hk as [->|Hk]); [..|by apply elem_of_nil in Hk];
    rewrite Hblank; cbn; tauto.
Qed.

(** X9. The chains of the login route fail exactly on a user name that is
    blank after trimming or on an empty password; the request is then
    answered 400 without a look at the administrators. *)
Theorem login_rejects_blank_input (JWT_SECRET : string) `{Bcrypt} `{Jwt} body :
  (fst (loginValidation body) ≠ [] ↔
     Text.trim (field body "username") = "" ∨ field body "password" = "") ∧
  (fst (loginValidation body) ≠ [] →
     ∀ clock env d,
       run clock (login JWT_SECRET clock body) env d =
         {| result := respond 400 (ErrorDetails "Invalid input"
                                     (fst (loginValidation body)));
            final := d; trace := [] |}).
Proof.
  split.
  - cbn [fst loginValidation].
    destruct (Text.trim (field body "username")) as [|c u];
      destruct (field body "password") as [|c' p]; cbn; split;
      intros Hx; try done; try (by left); try (by right);
      destruct Hx as [Hx|Hx]; discriminate Hx.
  - intros Hv clock env d. unfold login.
    by destruct (fst (loginValidation body)).
Qed.

End MoreValidation.

Lemma blank_text_is_reported_witness :
  let body := <["position" := "   "]> Reference.ada in
  violates (fst (@employeeValidation Reference.validator body)) "position".
Proof.
  intros body.
  apply (@blank_text_is_reported Reference.validator body "position").
  - apply list_elem_of_further, list_elem_of_further, list_elem_of_here.
  - vm_compute. reflexivity.
Defined.

Lemma login_rejects_blank_input_witness :
  let body := Reference.login_body "  " "admin123" in
  status (result (run 0 (@login Reference.bcrypt Reference.jwt Reference.secret 0 body)
                    [] (initializeDatabase [Reference.root]))) = 400.
Proof.
  intros body.
  destruct (@login_rejects_blank_input Reference.columns Reference.secret
              Reference.bcrypt Reference.jwt body) as [Hiff Hrun].
  rewrite Hrun; [reflexivity|]. apply Hiff. left. vm_compute. reflexivity.
Defined.

(** ** From login to the gate *)

Section LoginToGate.
Context {B : Bcrypt} {J : Jwt} {C : Columns}.
Variable JWT_SECRET : string.

(** X10. The gate does not look at the word before the first space: a header
    whose second piece is [t] is treated like [Bearer t], whatever comes
    before the first space and after the second. *)
Theorem gate_ignores_scheme clock pre t rest :
  no_space pre = true → no_space t = true →
  (rest = "" ∨ ∃ rest', rest = String " " rest') →
  authenticateToken JWT_SECRET clock
    (Some (String.append pre (String " " (String.append t rest)))) =
  authenticateToken JWT_SECRET clock (Some (Form.authorization t)).
Proof.
  intros Hpre Ht Hrest. unfold authenticateToken, Form.authorization.
  rewrite (header_token_second pre t rest Hpre Ht Hrest).
  change (String.append "Bearer " t)
    with (String.append "Bearer" (String " " t)).
  rewrite <- (append_empty_r t) at 3.
  by rewrite (header_token_second "Bearer" t "" eq_refl Ht (or_introl eq_refl)).
Qed.

(** X11. The token a successful login issues opens the gate when the client
    sends it back as [Bearer token]: provided [jwt.verify] accepts at that
    time what [jwt.sign] produced, and the token is non-empty and without
    spaces, the verify route answers with the identity login returned. *)
Theorem login_token_opens_gate clock later body d a :
  fst (loginValidation body) = [] →
  administrator d body = Some a →
  compareSync (field body "password") (admin_password a) = true →
  let user := {| user_id := admin_id a; user_name := admin_username a |} in
  let token := jwt_sign user JWT_SECRET clock in
  jwt_verify token JWT_SECRET later = inr user →
  no_space token = true → token ≠ "" →
  result (run clock (login JWT_SECRET clock body) [] d) =
    respond 200 (LoginOk "Login successful" token user) ∧
  authenticateToken JWT_SECRET later (Some (Form.authorization token)) =
    inr user ∧
  guarded JWT_SECRET later (Some (Form.authorization token)) verify =
    Ret (respond 200 (Verified user)).
Proof.
  intros Hv Hadmin Hpw user token Hverify Hspace Hnonempty.
  assert (Hgate : authenticateToken JWT_SECRET later
                    (Some (Form.authorization token)) = inr user).
  { unfold authenticateToken, Form.authorization.
    change (String.append "Bearer " token)
      with (String.append "Bearer" (String " " token)).
    rewrite <- (append_empty_r token) at 1.
    rewrite (header_token_second "Bearer" token "" eq_refl Hspace
               (or_introl eq_refl)).
    apply truthy_spec in Hnonempty. rewrite Hnonempty. cbn [negb].
    by rewrite Hverify. }
  split; [|split; [exact Hgate|]].
  - rewrite login_result by done. by rewrite Hadmin, Hpw.
  - unfold guarded. by rewrite Hgate.
Qed.

End LoginToGate.

Lemma gate_ignores_scheme_witness :
  @authenticateToken Reference.jwt Reference.secret 0
    (Some "Basic s3cret.admin trailing words") =
  @authenticateToken Reference.jwt Reference.secret 0
    (Some (Form.authorization "s3cret.admin")).
Proof.
  apply (@gate_ignores_scheme Reference.jwt Reference.secret 0
           "Basic" "s3cret.admin" " trailing words").
  - reflexivity.
  - reflexivity.
  - right. by exists "trailing words".
Defined.

Lemma login_token_opens_gate_witness :
  let body := Reference.login_body " admin " "admin123" in
  let token := @jwt_sign Reference.jwt
                 {| user_id := 1; user_name := "admin" |} Reference.secret 0 in
  @guarded Reference.jwt Reference.secret 5 (Some (Form.authorization token))
    verify =
  Ret (respond 200 (Verified {| user_id := 1; user_name := "admin" |})).
Proof.
  intros body token.
  destruct (@login_token_opens_gate Reference.bcrypt Reference.jwt
              Reference.columns Reference.secret 0 5 body
              (initializeDatabase [Reference.root]) Reference.root)
    as (_ & _ & Hverify).
  - reflexivity.
  - reflexivity.
  - reflexivity.
  - reflexivity.
  - reflexivity.
  - discriminate.
  - exact Hverify.
Defined.

(** ** The bootstrap *)

Section BootstrapFacts.
Context {B : Bcrypt} {J : Jwt} {C : Columns}.
Variable JWT_SECRET : string.
Variable hashSync : string → string.

Lemma initializeApp_named clock d :
  filter (λ a, admin_username a = "admin")
    (admins (initializeApp hashSync clock d)) ≠ [].
Proof.
  unfold initializeApp.
  destruct (filter _ (admins d)) as [|a l] eqn:Hf.
  - cbn [admins]. rewrite filter_app, Hf, filter_cons_True by done. done.
  - by rewrite Hf.
Qed.

(** X12. Running the bootstrap again changes nothing: after [initializeApp]
    there is an administrator named ["admin"], a second run inserts no
    second one, and no run removes or alters an administrator or an
    employee that was there. *)
Theorem bootstrap_idempotent clock1 clock2 d :
  initializeApp hashSync clock2 (initializeApp hashSync clock1 d) =
    initializeApp hashSync clock1 d ∧
  (∃ a, a ∈ admins (initializeApp hashSync clock1 d) ∧
        admin_username a = "admin") ∧
  (∀ a, a ∈ admins d → a ∈ admins (initializeApp hashSync clock1 d)) ∧
  employees (initializeApp hashSync clock1 d) = employees d.
Proof.
  split; [|split; [|split]].
  - pose proof (initializeApp_named clock1 d) as Hn.
    unfold initializeApp at 1.
    by destruct (filter _ (admins (initializeApp hashSync clock1 d))).
  - pose proof (initializeApp_named clock1 d) as Hn.
    destruct (filter _ (admins (initializeApp hashSync clock1 d)))
      as [|a l] eqn:Hf; [done|].
    assert (Ha : a ∈ filter (λ a, admin_username a = "admin")
                   (admins (initializeApp hashSync clock1 d)))
      by (rewrite Hf; left).
    apply list_elem_of_filter in Ha as [Hname Ha]. by exists a.
  - intros a Ha. unfold initializeApp.
    destruct (filter _ (admins d)); [|done].
    cbn [admins]. apply elem_of_app. by left.
  - unfold initializeApp. by destruct (filter _ (admins d)).
Qed.

(** X13. On a first start, when no administrator is named ["admin"], the
    bootstrap makes the documented default credentials work: provided
    [compareSync] accepts the password against what [hashSync] made of it,
    a login as admin / admin123 is answered 200 with a token for the user
    ["admin"]. *)
Theorem default_credentials_log_in clock later d :
  filter (λ a, admin_username a = "admin") (admins d) = [] →
  compareSync "admin123" (hashSync "admin123") = true →
  let body : gmap string string :=
    <["username" := "admin"]> (<["password" := "admin123"]> ∅) in
  ∃ token user,
    result (run later (login JWT_SECRET later body) []
              (initializeApp hashSync clock d)) =
      respond 200 (LoginOk "Login successful" token user) ∧
    user_name user = "admin".
Proof.
  intros Hfresh Hhash body.
  assert (Hv : fst (loginValidation body) = []) by reflexivity.
  assert (Hu : Text.trim (field body "username") = "admin") by reflexivity.
  assert (Hp : field body "password" = "admin123") by reflexivity.
  rewrite login_result by done.
  unfold administrator, initializeApp. rewrite Hu, Hfresh. cbn [admins].
  rewrite filter_app, Hfresh, filter_cons_True by done.
  cbn [app head admin_password admin_username filter]. rewrite Hp, Hhash.
  eexists _, _. split; reflexivity.
Qed.

End BootstrapFacts.

Lemma default_credentials_log_in_witness :
  status (result (run 5 (@login Reference.bcrypt Reference.jwt Reference.secret 5
                           (<["username" := "admin"]>
                              (<["password" := "admin123"]> ∅))) []
                    (initializeApp (String.append "hash:") 0
                       (initializeDatabase [])))) = 200.
Proof.
  destruct (@default_credentials_log_in Reference.bcrypt Reference.jwt
              Reference.columns Reference.secret (String.append "hash:") 0 5
              (initializeDatabase [])) as (token & user & Hres & _).
  - reflexivity.
  - reflexivity.
  - cbv zeta in Hres. by rewrite Hres.
Defined.

Lemma bootstrap_idempotent_witness :
  let d := initializeApp (String.append "hash:") 0 (initializeDatabase []) in
  initializeApp (String.append "hash:") 9 d = d ∧ length (admins d) = 1%nat.
Proof.
  intros d. split; [|reflexivity].
  apply (proj1 (bootstrap_idempotent (String.append "hash:") 0 9
                  (initializeDatabase []))).
Defined.

(** ** The client form against the server *)

Lemma length_ltrim s : (String.length (Text.ltrim s) ≤ String.length s)%nat.
Proof.
  induction s as [|c r IH]; [done|]. cbn [Text.ltrim].
  destruct (Text.is_whitespace c); cbn [String.length]; lia.
Qed.

Lemma length_rev_onto s acc :
  String.length (Text.rev_onto s acc) = (String.length s + String.length acc)%nat.
Proof.
  revert acc. induction s as [|c r IH]; intros acc; [done|].
  cbn [Text.rev_onto]. rewrite IH. cbn [String.length]. lia.
Qed.

Lemma length_trim s : (String.length (Text.trim s) ≤ String.length s)%nat.
Proof.
  unfold Text.trim, Text.rtrim. rewrite length_rev_onto.
  pose proof (length_ltrim (Text.rev_onto (Text.ltrim s) "")) as H1.
  rewrite length_rev_onto in H1. pose proof (length_ltrim s) as H2.
  cbn [String.length] in *. lia.
Qed.

Lemma required_text_passes value max required too_long :
  Form.required_text value max required too_long = None →
  Text.isLength 1 (Some max) (Text.trim value) = true.
Proof.
  unfold Form.required_text, Text.isLength.
  destruct (Text.truthy (Text.trim value)) eqn:Ht; [|discriminate].
  cbn [negb]. destruct (max <? String.length value)%nat eqn:Hm; [discriminate|].
  intros _. apply Nat.ltb_ge in Hm. apply truthy_spec in Ht.
  pose proof (length_trim value).
  apply andb_true_iff. split; apply Nat.leb_le; [|lia].
  destruct (Text.trim value); [done|]. cbn [String.length]. lia.
Qed.

Lemma address_passes ad :
  Client.validateForm_address ad = None →
  Text.isLength 0 (Some 200%nat) ad = true.
Proof.
  unfold Client.validateForm_address, Text.isLength.
  destruct (Text.truthy ad) eqn:Ht.
  - destruct (200 <? String.length ad)%nat eqn:Hm; [discriminate|].
    intros _. apply Nat.ltb_ge in Hm. apply Nat.leb_le in Hm. by rewrite Hm.
  - intros _. destruct ad; [reflexivity|discriminate Ht].
Qed.

Section FormAgainstServer.
Context {V : Validator}.

(** X14. Whatever the form accepts as first name, last name, position,
    department or address, the chains of the server accept too: the form
    holds the value as typed against the bound, the server the trimmed
    one. *)
Theorem form_text_passes_the_server body :
  (Form.first_name_error (field body "first_name") = None →
     ¬ violates (fst (employeeValidation body)) "first_name") ∧
  (Form.last_name_error (field body "last_name") = None →
     ¬ violates (fst (employeeValidation body)) "last_name") ∧
  (Form.position_error (field body "position") = None →
     ¬ violates (fst (employeeValidation body)) "position") ∧
  (Form.department_error (field body "department") = None →
     ¬ violates (fst (employeeValidation body)) "department") ∧
  (∀ ad, body !! "address" = Some ad →
         Client.validateForm_address ad = None →
         ¬ violates (fst (employeeValidation body)) "address").
Proof.
  assert (Htext : ∀ k max,
            (k, max) ∈ [("first_name", 50%nat); ("last_name", 50%nat);
                        ("position", 100%nat); ("department", 100%nat)] →
            violates (fst (employeeValidation body)) k →
            Text.isLength 1 (Some max) (Text.trim (field body k)) = false).
  { intros k max Hk. cbn [fst employeeValidation].
    rewrite !violates_app, !violates_check. intros Hviol.
    repeat (apply elem_of_cons in Hk as [[= -> ->]|Hk]);
      [..|by apply elem_of_nil in Hk];
      destruct (body !! "phone"), (body !! "address");
      rewrite ?violates_check, ?violates_nil in Hviol;
      intuition (try discriminate; auto). }
  split; [|split; [|split; [|split]]].
  - intros Hform Hviol. apply required_text_passes in Hform.
    apply (Htext _ 50%nat) in Hviol; [congruence|].
    apply list_elem_of_here.
  - intros Hform Hviol. apply required_text_passes in Hform.
    apply (Htext _ 50%nat) in Hviol; [congruence|].
    apply list_elem_of_further, list_elem_of_here.
  - intros Hform Hviol. apply required_text_passes in Hform.
    apply (Htext _ 100%nat) in Hviol; [congruence|].
    do 2 apply list_elem_of_further. apply list_elem_of_here.
  - intros Hform Hviol. apply required_text_passes in Hform.
    apply (Htext _ 100%nat) in Hviol; [congruence|].
    do 3 apply list_elem_of_further. apply list_elem_of_here.
  - intros ad Had Hform. apply address_passes in Hform.
    cbn [fst employeeValidation]. rewrite Had.
    rewrite !violates_app, !violates_check.
    destruct (body !! "phone"); rewrite ?violates_check, ?violates_nil;
      intuition (try discriminate; congruence).
Qed.

End FormAgainstServer.

Lemma form_text_passes_the_server_witness :
  let body := <["first_name" := "  Ada  "]> Reference.ada in
  ¬ violates (fst (@employeeValidation Reference.validator body)) "first_name".
Proof.
  intros body.
  apply (proj1 (@form_text_passes_the_server Reference.validator body)).
  vm_compute. reflexivity.
Defined.

(** The converse fails: fifty letters and a trailing space pass the server
    and not the form. *)
Example server_accepts_what_form_rejects :
  let name := "aaaaaaaaaaaaaaaaaaaaaaaaaaaaaaaaaaaaaaaaaaaaaaaaaa " in
  Form.first_name_error name = Some "Max 50 characters" ∧
  Text.isLength 1 (Some 50%nat) (Text.trim name) = true.
Proof. vm_compute. done. Qed.

(** ** The employee list of the client *)

Lemma truthy_toLowerCase s : Text.truthy (Text.toLowerCase s) = Text.truthy s.
Proof. by destruct s. Qed.

Lemma elem_of_set_of v l : v ∈ Roster.set_of l ↔ v ∈ l.
Proof.
  induction l as [|w l IH]; [done|]. cbn [Roster.set_of].
  rewrite !elem_of_cons, list_elem_of_filter, IH.
  destruct (decide (v = w)); tauto.
Qed.

Lemma NoDup_set_of l : NoDup (Roster.set_of l).
Proof.
  induction l as [|w l IH]; [constructor|]. cbn [Roster.set_of].
  apply NoDup_cons. split; [|by apply NoDup_filter].
  rewrite list_elem_of_filter. tauto.
Qed.

Lemma length_set_of l : (length (Roster.set_of l) ≤ length l)%nat.
Proof.
  induction l as [|w l IH]; [done|]. cbn [Roster.set_of length].
  pose proof (length_filter (λ x, x ≠ w) (Roster.set_of l)). lia.
Qed.

(** X15. The search box ignores letter case: two search terms that differ by
    case only show the same employees, in the same order. *)
Theorem search_ignores_case rows term1 term2 dept :
  Text.toLowerCase term1 = Text.toLowerCase term2 →
  Roster.filterEmployees rows term1 dept = Roster.filterEmployees rows term2 dept.
Proof.
  intros Hcase. unfold Roster.filterEmployees.
  assert (Ht : Text.truthy term1 = Text.truthy term2)
    by by rewrite <- (truthy_toLowerCase term1), Hcase, truthy_toLowerCase.
  rewrite Ht. destruct (Text.truthy term2); [|done].
  assert (Hsame : filter (λ emp, Roster.matches_term term1 emp = true) rows =
                  filter (λ emp, Roster.matches_term term2 emp = true) rows).
  { apply list_filter_iff. intros emp. unfold Roster.matches_term.
    by rewrite Hcase. }
  by rewrite Hsame.
Qed.

(** X16. What the list shows: the employees, in the order received, that
    contain the search term (if one is typed) and belong to the selected
    department (if one is selected), and no others. *)
Theorem filtered_employees rows term dept :
  Roster.filterEmployees rows term dept `sublist_of` rows ∧
  (∀ emp, emp ∈ Roster.filterEmployees rows term dept ↔
          emp ∈ rows ∧
          (term = "" ∨ Roster.matches_term term emp = true) ∧
          (dept = "" ∨ department emp = dept)).
Proof.
  unfold Roster.filterEmployees. split.
  - destruct (Text.truthy term), (Text.truthy dept); try done.
    + etrans; apply sublist_filter.
    + apply sublist_filter.
    + apply sublist_filter.
  - intros emp.
    destruct (Text.truthy term) eqn:Ht, (Text.truthy dept) eqn:Hd;
      rewrite ?list_elem_of_filter;
      try apply truthy_spec in Ht; try apply truthy_spec in Hd;
      try (assert (term = "") by
             (destruct (decide (term = "")) as [|Hne]; [done|];
              apply truthy_spec in Hne; congruence));
      try (assert (dept = "") by
             (destruct (decide (dept = "")) as [|Hne]; [done|];
              apply truthy_spec in Hne; congruence));
      intuition congruence.
Qed.

(** X17. The choices of the department box: every department of some employee,
    each one once; there are no more choices than employees. *)
Theorem departments_are_distinct rows :
  NoDup (Roster.departments rows) ∧
  (∀ dep, dep ∈ Roster.departments rows ↔
          ∃ emp, emp ∈ rows ∧ department emp = dep) ∧
  (length (Roster.departments rows) ≤ length rows)%nat.
Proof.
  unfold Roster.departments. split; [apply NoDup_set_of|]. split.
  - intros dep. rewrite elem_of_set_of, list_elem_of_fmap. split.
    + intros (emp & -> & Hemp). eauto.
    + intros (emp & Hemp & <-). eauto.
  - etrans; [apply length_set_of|]. by rewrite length_fmap.
Qed.

(** X18. Every choice of the department box leads somewhere: selecting it, with
    the search box empty, shows at least one employee, and only employees
    of that department. *)
Theorem department_choice_shows_someone rows dep :
  dep ∈ Roster.departments rows →
  dep ≠ "" →
  Roster.filterEmployees rows "" dep ≠ [] ∧
  Forall (λ emp, department emp = dep) (Roster.filterEmployees rows "" dep).
Proof.
  intros Hdep Hne.
  unfold Roster.departments in Hdep.
  apply elem_of_set_of, list_elem_of_fmap in Hdep as (emp & Hdepartment & Hemp).
  symmetry in Hdepartment.
  apply truthy_spec in Hne. unfold Roster.filterEmployees.
  cbn [Text.truthy String.eqb negb]. rewrite Hne. split.
  - intros Hnil.
    assert (Hin : emp ∈ filter (λ emp, department emp = dep) rows)
      by (apply list_elem_of_filter; auto).
    rewrite Hnil in Hin. by apply elem_of_nil in Hin.
  - apply Forall_forall. intros e He. by apply list_elem_of_filter in He as [? _].
Qed.

Section ListAfterDelete.
Context {C : Columns}.

(** X19. After the server acknowledged a delete, the list the client keeps
    without asking again holds the rows the table now holds: if the list
    held the rows of the table before, in whatever order, it holds those of
    the table after. *)
Theorem handleDelete_follows_the_table clock id row d rows :
  employees d !! id = Some row →
  rows ≡ₚ map_to_list (employees d) →
  Roster.handleDelete rows id ≡ₚ
    map_to_list (employees (final (run clock (delete_employee id) [] d))).
Proof.
  intros Hid Hrows. rewrite (run_delete_existing clock id row d Hid).
  cbn [final employees]. unfold Roster.handleDelete. rewrite Hrows.
  apply NoDup_Permutation.
  - apply NoDup_filter, NoDup_map_to_list.
  - apply NoDup_map_to_list.
  - intros [j r]. rewrite list_elem_of_filter, !elem_of_map_to_list,
      lookup_delete_Some. cbn [fst]. intuition congruence.
Qed.

End ListAfterDelete.

Lemma search_ignores_case_witness :
  let rows := [Reference.ada_row;
               Reference.grace_row] in
  Roster.filterEmployees rows "LOVE" "" = Roster.filterEmployees rows "love" "" ∧
  length (Roster.filterEmployees rows "love" "") = 1%nat.
Proof.
  intros rows. split; [|vm_compute; reflexivity].
  apply (search_ignores_case rows "LOVE" "love" ""). reflexivity.
Defined.

Lemma filtered_employees_witness :
  let ada := Reference.ada_row in
  let grace := Reference.grace_row in
  grace ∈ Roster.filterEmployees [ada; grace] "hopper" "Navy".
Proof.
  intros ada grace.
  apply (proj2 (filtered_employees [ada; grace] "hopper" "Navy")).
  split; [apply list_elem_of_further, list_elem_of_here|].
  split; right; vm_compute; reflexivity.
Defined.

Lemma departments_are_distinct_witness :
  let ada := Reference.ada_row in
  let grace := Reference.grace_row in
  "Navy" ∈ Roster.departments [ada; grace; ada].
Proof.
  intros ada grace.
  apply (proj1 (proj2 (departments_are_distinct [ada; grace; ada]))).
  exists grace. split; [|reflexivity].
  apply list_elem_of_further, list_elem_of_here.
Defined.

Lemma department_choice_shows_someone_witness :
  let ada := Reference.ada_row in
  let grace := Reference.grace_row in
  Roster.filterEmployees [ada; grace] "" "Research" ≠ [].
Proof.
  intros ada grace.
  apply (department_choice_shows_someone [ada; grace] "Research").
  - vm_compute. apply list_elem_of_here.
  - discriminate.
Defined.

Lemma handleDelete_follows_the_table_witness :
  let rows := map_to_list (employees Reference.staffed) in
  Roster.handleDelete rows 1 ≡ₚ
    map_to_list (employees (final (run 30 (delete_employee 1) [] Reference.staffed))).
Proof.
  intros rows.
  apply (handleDelete_follows_the_table 30 1
           Reference.ada_row).
  - vm_compute. reflexivity.
  - reflexivity.
Defined.

Lemma violations_follow_the_chains_witness :
  path <$> fst (@employeeValidation Reference.validator ∅) =
    ["first_name"; "last_name"; "email"; "position"; "department"; "salary";
     "hire_date"] ∧
  (path <$> fst (@employeeValidation Reference.validator ∅)) `sublist_of`
    ["first_name"; "last_name"; "email"; "position"; "department"; "salary";
     "hire_date"; "phone"; "address"].
Proof.
  split; [vm_compute; reflexivity|].
  apply (@violations_follow_the_chains Reference.validator ∅).
Defined.
